(** * Uniform-continuity checker (streamlit_app.py): model and properties

    The program parses a function text with SymPy, classifies the function
    on an interval ([check_uniform_continuity]), and the Streamlit script
    around it validates the two bound texts, shows the verdict and plots
    the function.

    SymPy, NumPy and Streamlit are external.  SymPy is an [Engine] record
    of the operations the source calls, a parameter of every definition;
    Streamlit calls are events of a trace; NumPy arrays of floats are lists
    of IEEE values ([spec_float]).

    Python's control flow is kept: a run ends normally, by a [return], by a
    propagating exception, or by [st.stop()], or it does not end;
    [try_except] is the [try: ... except Exception: ...] statement and
    [def_] the boundary of a function call.

    Conventions of the model:
    - the engine calls that compute may raise, inside a [try] statement or
      outside of one: [parse_expr], [singularities], [limit], [evalf], the
      constructor [Interval], the membership test [in], the truth value
      [bool()] of an expression, and the iteration over a set of points,
      which may also go on without end; the attribute reads ([is_real],
      [is_infinite]) and [latex] return normally;
    - the calls of [parse_expr], [singularities], [limit], [evalf] and of
      the membership test, and every Streamlit call, are recorded, in
      program order, in the trace of the run. *)

From Stdlib Require Import String Ascii List Bool Arith ZArith QArith Lia.
From Stdlib Require Import DecimalString.
From Stdlib Require Import Floats.SpecFloat.
Import ListNotations.
Open Scope string_scope.

(** ** Python values used by the script *)

Module Py.

(** An exception of class [Exception], by its [str()]. *)
Definition Exn := string.

(** SymPy's three-valued assumptions ([True], [False], [None]) and their
    truth value in an [if]. *)
Definition fuzzy := option bool.

Definition truthy (v : fuzzy) : bool :=
  match v with Some true => true | _ => false end.

(** [s in [s1, ..., sn]] on strings. *)
Definition str_in (s : string) (l : list string) : bool :=
  existsb (String.eqb s) l.

(** [str.lower()], on the ASCII letters. *)
Definition lower_ascii (c : ascii) : ascii :=
  let n := nat_of_ascii c in
  if (65 <=? n)%nat && (n <=? 90)%nat then ascii_of_nat (n + 32) else c.

Fixpoint lower (s : string) : string :=
  match s with
  | EmptyString => EmptyString
  | String c s' => String (lower_ascii c) (lower s')
  end.

(** [str.replace(old, new)] for a non-empty [old]: occurrences are taken
    left to right and do not overlap.  [skip] counts the characters of a
    replaced occurrence still to be dropped. *)
Fixpoint replace_from (old new : string) (skip : nat) (s : string) : string :=
  match s with
  | EmptyString => EmptyString
  | String c s' =>
      match skip with
      | S k => replace_from old new k s'
      | O =>
          if String.prefix old s
          then new ++ replace_from old new (String.length old - 1) s'
          else String c (replace_from old new 0 s')
      end
  end.

Definition replace (old new s : string) : string := replace_from old new 0 s.

End Py.
Import Py.

(** ** The symbolic engine *)

(** The two ways the script calls [parse_expr]: on the function text
    ([local_dict={'x': x}, transformations='all']) and on a bound text
    ([local_dict] of [oo], [E], [pi]). *)
Inductive ParseCtx : Type := FunctionText | BoundText.

(** [dir='+'] and [dir='-'] of [sympy.limit]. *)
Inductive Dir : Type := dir_plus | dir_minus.

(** [sympy.Interval(start, end, left_open=False, right_open=False)]. *)
Record Interval (Expr : Type) : Type := mkInterval {
  start : Expr;
  end_ : Expr;
  left_open : bool;
  right_open : bool
}.
Arguments mkInterval {Expr} _ _ _ _.
Arguments start {Expr} _.
Arguments end_ {Expr} _.
Arguments left_open {Expr} _.
Arguments right_open {Expr} _.

(** [sympy.Interval(a_sym, b_sym)]: both ends closed by default. *)
Definition sympy_Interval {Expr : Type} (a b : Expr) : Interval Expr :=
  mkInterval a b false false.

(** How the iteration over a value ends, once the items it holds have been
    handed over: the iteration is over, the request for the next item
    raises (at once, for a value that cannot be iterated), or items keep
    coming without end. *)
Inductive Ending : Type :=
| exhausted
| iter_raises (e : Exn)
| endless.

(** A value a [for] loop goes through: a Python list or a SymPy set of
    points.  [listed] holds the items in the order the loop receives them.
    A set with infinitely many points is given by [endless] and by the
    points received up to the one at which the loop is left, or by any of
    its beginnings when the loop is never left. *)
Record Points (Expr : Type) : Type := mkPoints {
  listed : list Expr;
  ending : Ending
}.
Arguments mkPoints {Expr} _ _.
Arguments listed {Expr} _.
Arguments ending {Expr} _.

(** A Python list. *)
Definition py_list {Expr : Type} (items : list Expr) : Points Expr :=
  mkPoints items exhausted.

Record Engine (Expr : Type) : Type := mkEngine {
  (** [parse_expr(text, ...)] *)
  parse_expr : ParseCtx -> string -> Exn + Expr;
  (** [sympy.singularities(f, x)]: on success a set of points *)
  singularities : Expr -> Exn + Points Expr;
  (** [sympy.limit(f, x, point, dir=...)] *)
  limit : Expr -> Expr -> Dir -> Exn + Expr;
  (** the attributes [.is_infinite] and [.is_real] *)
  is_infinite : Expr -> fuzzy;
  is_real : Expr -> fuzzy;
  (** the [ValueError] of [sympy.Interval(a, b)] on bounds it refuses, if
      any *)
  interval_error : Expr -> Expr -> option Exn;
  (** [p in interval]: a truth value, or the [TypeError] of a test that
      does not evaluate to one *)
  contains : Expr -> Interval Expr -> Exn + bool;
  (** [sympy.latex(e)] *)
  latex : Expr -> string;
  (** [e.evalf()], a float, as the rational it denotes *)
  evalf : Expr -> Exn + Q;
  (** [bool(e)], the truth value of an expression object in an [if]; it
      raises [TypeError] on a relation that is not decided *)
  expr_bool : Expr -> Exn + bool
}.
Arguments parse_expr {Expr} _ _ _.
Arguments singularities {Expr} _ _.
Arguments limit {Expr} _ _ _ _.
Arguments interval_error {Expr} _ _ _.
Arguments is_infinite {Expr} _ _.
Arguments is_real {Expr} _ _.
Arguments contains {Expr} _ _ _.
Arguments latex {Expr} _ _.
Arguments evalf {Expr} _ _.
Arguments expr_bool {Expr} _ _.

(** ** Control flow and traces *)

(** Streamlit calls made by the script. *)
Inductive Widget : Type :=
| st_success (msg : string)
| st_error (msg : string)
| st_warning (msg : string)
| st_markdown (msg : string)
| st_info (msg : string)
| st_stop.

Inductive Event (Expr : Type) : Type :=
| EvParse (ctx : ParseCtx) (text : string)
| EvSingularities (f : Expr)
| EvContains (p : Expr) (i : Interval Expr)
| EvLimit (f point : Expr) (d : Dir)
| EvEvalf (e : Expr)
| EvCheck (func_str interval_type : string) (a_sym b_sym : Expr)
| EvPlot (f a_sym b_sym : Expr)
| EvUi (w : Widget).
Arguments EvParse {Expr} _ _.
Arguments EvSingularities {Expr} _.
Arguments EvContains {Expr} _ _.
Arguments EvLimit {Expr} _ _ _.
Arguments EvEvalf {Expr} _.
Arguments EvCheck {Expr} _ _ _ _.
Arguments EvPlot {Expr} _ _ _.
Arguments EvUi {Expr} _.

(** How a piece of code ends.  [R] is the type of what the enclosing
    function returns, [A] the type of the value when the code completes. *)
Inductive Outcome (R A : Type) : Type :=
| Normal (a : A)          (* ran to its end *)
| Returned (r : R)        (* executed [return r] *)
| Raised (e : Exn)        (* an [Exception] is propagating *)
| Stopped                 (* [st.stop()]: the script run is over *)
| Diverged.               (* the code does not end *)
Arguments Normal {R A} _.
Arguments Returned {R A} _.
Arguments Raised {R A} _.
Arguments Stopped {R A}.
Arguments Diverged {R A}.

(** A run: how it ended and the events it produced, oldest first.  For a
    run that does not end, the events are those of the items listed. *)
Definition Run (Expr R A : Type) : Type :=
  (Outcome R A * list (Event Expr))%type.

Definition outcome {Expr R A : Type} (m : Run Expr R A) : Outcome R A := fst m.
Definition trace {Expr R A : Type} (m : Run Expr R A) : list (Event Expr) :=
  snd m.

Definition ret {Expr R A : Type} (a : A) : Run Expr R A := (Normal a, []).

(** [m; k]: [k] runs only when [m] completes. *)
Definition bind {Expr R A B : Type} (m : Run Expr R A)
    (k : A -> Run Expr R B) : Run Expr R B :=
  match fst m with
  | Normal a => (fst (k a), (snd m ++ snd (k a))%list)
  | Returned r => (Returned r, snd m)
  | Raised e => (Raised e, snd m)
  | Stopped => (Stopped, snd m)
  | Diverged => (Diverged, snd m)
  end.

Definition emit {Expr R : Type} (ev : Event Expr) : Run Expr R unit :=
  (Normal tt, [ev]).

(** [return r]. *)
Definition return_ {Expr R A : Type} (r : R) : Run Expr R A := (Returned r, []).

(** [raise e]. *)
Definition raise {Expr R A : Type} (e : Exn) : Run Expr R A := (Raised e, []).

(** A loop that is never left. *)
Definition diverge {Expr R A : Type} : Run Expr R A := (Diverged, []).

(** [st.stop()]: Streamlit ends the run with an exception that is not an
    [Exception], so no [except Exception] clause catches it. *)
Definition stop {Expr R A : Type} : Run Expr R A := (Stopped, [EvUi st_stop]).

(** The result of an engine call that may raise. *)
Definition of_result {R A : Type} (r : Exn + A) : Outcome R A :=
  match r with
  | inl e => Raised e
  | inr a => Normal a
  end.

(** [try: body  except Exception as e: handler e]. *)
Definition try_except {Expr R A : Type} (body : Run Expr R A)
    (handler : Exn -> Run Expr R A) : Run Expr R A :=
  match fst body with
  | Raised e => (fst (handler e), (snd body ++ snd (handler e))%list)
  | _ => body
  end.

Declare Scope run_scope.
Delimit Scope run_scope with run.
Notation "x <- m ;; k" := (bind m (fun x => k))
  (at level 61, m at next level, right associativity) : run_scope.
Notation "m ;;; k" := (bind m (fun _ => k))
  (at level 61, right associativity) : run_scope.
Open Scope run_scope.

(** [for x in items: body x], on the items of a list. *)
Fixpoint for_each {Expr R A : Type} (items : list A)
    (body : A -> Run Expr R unit) : Run Expr R unit :=
  match items with
  | [] => ret tt
  | x :: rest => body x ;;; for_each rest body
  end.

(** [for x in s: body x], on a list or a set: after the last item the loop
    is over, or the iterator raises, or the loop goes on. *)
Definition for_in {Expr R : Type} (s : Points Expr)
    (body : Expr -> Run Expr R unit) : Run Expr R unit :=
  for_each (listed s) body ;;;
  match ending s with
  | exhausted => ret tt
  | iter_raises e => raise e
  | endless => diverge
  end.

(** The script is not inside a function: its code cannot [return]. *)
Definition NoReturn : Type := Empty_set.

(** The call of a function whose body ends with a [return]: the body never
    completes normally, and what it returns is the value of the call. *)
Definition def_ {Expr R R' : Type} (body : Run Expr R Empty_set)
  : Run Expr R' R :=
  match fst body with
  | Normal a => match a with end
  | Returned r => (Normal r, snd body)
  | Raised e => (Raised e, snd body)
  | Stopped => (Stopped, snd body)
  | Diverged => (Diverged, snd body)
  end.

(** ** The classifier: [check_uniform_continuity] *)

(** The verdict strings of the source. *)
Definition verdict_error : string := "오류".
Definition verdict_cannot_classify : string := "판별 불가".
Definition verdict_not_uc : string := "평등연속 아님".
Definition verdict_uc : string := "평등연속".
Definition verdict_fallback : string := "판단 불가".

(** The four interval tags of the radio selector. *)
Definition tag_closed : string := "[a, b]".
Definition tag_open : string := "(a, b)".
Definition tag_right_open : string := "[a, b)".
Definition tag_left_open : string := "(a, b]".

Section Classifier.

Context {Expr : Type} (E : Engine Expr).

(** What the function returns: [(result, reason, f)], [f] being [None]
    or the parsed expression. *)
Definition Result : Type := (string * string * option Expr)%type.

Definition verdict (r : Result) : string := fst (fst r).
Definition reason (r : Result) : string := snd (fst r).
Definition expression (r : Result) : option Expr := snd r.

(** *** The justification texts *)

Definition reason_parse_error (e : Exn) : string :=
  "함수식을 파싱할 수 없습니다: " ++ e.

Definition reason_closed_infinite : string :=
  "닫힌구간 [a, b]는 유한해야 합니다. 무한대 구간은 닫힌구간으로 설정할 수 없습니다.".

Definition reason_discontinuous (a_sym b_sym p : Expr) : string :=
  "함수가 닫힌구간 $[" ++ latex E a_sym ++ ", " ++ latex E b_sym
  ++ "]$ 내의 점 $x = " ++ latex E p
  ++ "$ 에서 불연속이므로 평등연속이 아닙니다.".

Definition reason_heine_cantor (a_sym b_sym : Expr) : string :=
  "함수가 닫힌구간 $[" ++ latex E a_sym ++ ", " ++ latex E b_sym
  ++ "]$ 에서 연속입니다. 따라서 **하이네-칸토어 정리**에 의해 이 구간에서 평등연속입니다.".

Definition reason_left_endpoint (a_sym : Expr) : string :=
  "구간의 왼쪽 끝점 $x \to " ++ latex E a_sym
  ++ "^+$ 에서 함수의 극한이 무한대로 발산하므로 평등연속이 아닙니다.".

Definition reason_right_endpoint (b_sym : Expr) : string :=
  "구간의 오른쪽 끝점 $x \to " ++ latex E b_sym
  ++ "^-$ 에서 함수의 극한이 무한대로 발산하므로 평등연속이 아닙니다.".

Definition reason_finite_limits : string :=
  "구간의 열린 끝점에서 함수의 극한이 모두 유한한 값으로 수렴하므로 평등연속입니다.".

Definition reason_fallback : string :=
  "제공된 판별 로직으로는 평등연속성을 명확히 판단하기 어렵습니다.".

(** *** Engine calls, recorded *)

Definition call_parse {R : Type} (ctx : ParseCtx) (text : string)
  : Run Expr R Expr :=
  (of_result (parse_expr E ctx text), [EvParse ctx text]).

Definition call_singularities {R : Type} (f : Expr)
  : Run Expr R (Points Expr) :=
  (of_result (singularities E f), [EvSingularities f]).

(** Line 50: [sympy.Interval(a_sym, b_sym)]. *)
Definition call_Interval {R : Type} (a_sym b_sym : Expr)
  : Run Expr R (Interval Expr) :=
  match interval_error E a_sym b_sym with
  | Some e => raise e
  | None => ret (sympy_Interval a_sym b_sym)
  end.

Definition call_contains {R : Type} (p : Expr) (i : Interval Expr)
  : Run Expr R bool :=
  (of_result (contains E p i), [EvContains p i]).

Definition call_limit {R : Type} (f point : Expr) (d : Dir) : Run Expr R Expr :=
  (of_result (limit E f point d), [EvLimit f point d]).

Definition call_evalf {R : Type} (e : Expr) : Run Expr R Q :=
  (of_result (evalf E e), [EvEvalf e]).

(** *** Lines 40-43: the singularities, [[]] when the engine raises *)
Definition compute_discontinuities (f : Expr)
  : Run Expr Result (Points Expr) :=
  try_except (call_singularities f) (fun _ => ret (py_list [])).

(** *** Lines 52-54: the body of the [for] loop *)
Definition loop_body (f a_sym b_sym : Expr) (interval_sympy : Interval Expr)
    (p : Expr) : Run Expr Result unit :=
  inside <- call_contains p interval_sympy ;;
  if inside
  then return_ (verdict_not_uc, reason_discontinuous a_sym b_sym p, Some f)
  else ret tt.

(** *** Lines 46-56: the closed tag *)
Definition closed_block (f a_sym b_sym : Expr)
    (discontinuities : Points Expr) : Run Expr Result unit :=
  (if truthy (is_infinite E a_sym) || truthy (is_infinite E b_sym)
   then return_ (verdict_cannot_classify, reason_closed_infinite, Some f)
   else ret tt) ;;;
  interval_sympy <- call_Interval a_sym b_sym ;;
  for_in discontinuities (loop_body f a_sym b_sym interval_sympy) ;;;
  return_ (verdict_uc, reason_heine_cantor a_sym b_sym, Some f).

(** *** Lines 59-84: the other tags

    The local variables [is_uc] and [reason] are the pair [(is_uc, reason)]. *)
Definition OpenState : Type := (bool * string)%type.

(** Lines 63-69. *)
Definition left_endpoint (interval_type : string) (f a_sym : Expr)
    (st : OpenState) : Run Expr Result OpenState :=
  if str_in interval_type [tag_open; tag_left_open] then
    try_except
      (limit_a <- call_limit f a_sym dir_plus ;;
       if truthy (is_infinite E limit_a)
       then ret (false, reason_left_endpoint a_sym)
       else ret st)
      (fun _ => ret st)
  else ret st.

(** Lines 72-78. *)
Definition right_endpoint (interval_type : string) (f b_sym : Expr)
    (st : OpenState) : Run Expr Result OpenState :=
  if fst st && str_in interval_type [tag_open; tag_right_open] then
    try_except
      (limit_b <- call_limit f b_sym dir_minus ;;
       if truthy (is_infinite E limit_b)
       then ret (false, reason_right_endpoint b_sym)
       else ret st)
      (fun _ => ret st)
  else ret st.

Definition open_block (interval_type : string) (f a_sym b_sym : Expr)
  : Run Expr Result unit :=
  st1 <- left_endpoint interval_type f a_sym (true, "") ;;
  st2 <- right_endpoint interval_type f b_sym st1 ;;
  (if negb (fst st2)
   then return_ (verdict_not_uc, snd st2, Some f)
   else ret tt) ;;;
  return_ (verdict_uc, reason_finite_limits, Some f).

(** *** Lines 45-84: the [if]/[else] on the tag *)
Definition if_else_block (interval_type : string) (f a_sym b_sym : Expr)
    (discontinuities : Points Expr) : Run Expr Result unit :=
  if String.eqb interval_type tag_closed
  then closed_block f a_sym b_sym discontinuities
  else open_block interval_type f a_sym b_sym.

(** *** Lines 34-86: the body of the function

    The symbol [x] of line 34 is the variable the engine's [parse_expr],
    [singularities] and [limit] work with. *)
Definition body (func_str interval_type : string) (a_sym b_sym : Expr)
  : Run Expr Result Empty_set :=
  f <- try_except (call_parse FunctionText func_str)
         (fun e => return_ (verdict_error, reason_parse_error e, None)) ;;
  discontinuities <- compute_discontinuities f ;;
  if_else_block interval_type f a_sym b_sym discontinuities ;;;
  return_ (verdict_fallback, reason_fallback, Some f).

(** *** A call of [check_uniform_continuity], from the script *)
Definition check_uniform_continuity (func_str interval_type : string)
    (a_sym b_sym : Expr) : Run Expr NoReturn Result :=
  def_ (body func_str interval_type a_sym b_sym).

End Classifier.

(** ** The script around the classifier (lines 114-148) *)

Section Script.

Context {Expr : Type} (E : Engine Expr).

(** Lines 118-119: [s.lower().replace('inf', 'oo').replace('e', 'E')]. *)
Definition normalize_bound (s : string) : string :=
  replace "e" "E" (replace "inf" "oo" (lower s)).

Definition msg_invalid_bound : Exn := "유효한 실수 또는 기호가 아닙니다.".

Definition msg_ordering : string :=
  "구간의 시작점(a)은 끝점(b)보다 작아야 합니다.".

Definition msg_bound_failure (a_str b_str : string) (e : Exn) : string :=
  "구간 값을 해석하는 데 실패했습니다: '" ++ a_str ++ "' 또는 '" ++ b_str
  ++ "'. 올바른 형식을 입력해주세요. (오류: " ++ e ++ ")".

(** Line 124: [v.is_real or v.is_infinite]. *)
Definition real_or_infinite (v : Expr) : bool :=
  truthy (is_real E v) || truthy (is_infinite E v).

(** Lines 128-131. *)
Definition ordering_check (a_sym b_sym : Expr) : Run Expr NoReturn unit :=
  if negb (truthy (is_infinite E a_sym)) && negb (truthy (is_infinite E b_sym))
  then
    a_num <- call_evalf E a_sym ;;
    b_num <- call_evalf E b_sym ;;
    if Qle_bool b_num a_num
    then emit (EvUi (st_error msg_ordering)) ;;; stop
    else ret tt
  else ret tt.

(** Lines 115-135: the [try] statement; it completes with the two bounds. *)
Definition read_bounds (a_str b_str : string)
  : Run Expr NoReturn (Expr * Expr) :=
  try_except
    (a_sym <- call_parse E BoundText (normalize_bound a_str) ;;
     b_sym <- call_parse E BoundText (normalize_bound b_str) ;;
     (if negb (real_or_infinite a_sym) || negb (real_or_infinite b_sym)
      then raise msg_invalid_bound
      else ret tt) ;;;
     ordering_check a_sym b_sym ;;;
     ret (a_sym, b_sym))
    (fun e =>
       emit (EvUi (st_error (msg_bound_failure a_str b_str e))) ;;; stop).

(** Line 147: the truth value of [func_sympy], which is [None] or an
    expression object; [bool()] of an expression may raise. *)
Definition func_sympy_truth (func_sympy : option Expr) : Exn + bool :=
  match func_sympy with
  | None => inr false
  | Some f => expr_bool E f
  end.

(** The test of an [if] on [func_sympy]. *)
Definition test_func_sympy (func_sympy : option Expr)
  : Run Expr NoReturn bool :=
  (of_result (func_sympy_truth func_sympy), []).

Definition banner (result : string) : string :=
  "**판별 결과: " ++ result ++ "**".

(** Lines 140-142. *)
Definition banner_widget (result : string) : Widget :=
  if String.eqb result verdict_uc then st_success (banner result)
  else if String.eqb result verdict_not_uc then st_error (banner result)
  else st_warning (banner result).

(** Lines 140-148; the [try] statement that draws the chart (lines
    149-195) is the event [EvPlot]. *)
Definition show_result (r : Result) (a_sym b_sym : Expr)
  : Run Expr NoReturn unit :=
  emit (EvUi (banner_widget (verdict r))) ;;;
  emit (EvUi (st_markdown "### 판별 근거")) ;;;
  emit (EvUi (st_info (reason r))) ;;;
  truth <- test_func_sympy (expression r) ;;
  match expression r with
  | Some f =>
      if truth then
        emit (EvUi (st_markdown "### 함수 그래프")) ;;;
        emit (EvPlot f a_sym b_sym)
      else ret tt
  | None => ret tt
  end.

(** Lines 114-148: one press of the button.  The call of the classifier
    is recorded as [EvCheck]; the spinner shown during the call is left
    out. *)
Definition submit (func_input a_str b_str interval_type : string)
  : Run Expr NoReturn unit :=
  bounds <- read_bounds a_str b_str ;;
  emit (EvCheck func_input interval_type (fst bounds) (snd bounds)) ;;;
  r <- check_uniform_continuity E func_input interval_type
         (fst bounds) (snd bounds) ;;
  show_result r (fst bounds) (snd bounds).

End Script.

(** ** Plot sampling (lines 165-168) *)

Module Np.

(** What a lambdified function returns on an array: an array, or a
    Python scalar when the expression is constant. *)
Inductive value : Type :=
| scalar (v : spec_float)
| array (ys : list spec_float).

Definition nan : spec_float := S754_nan.

(** [np.isinf]: either infinity. *)
Definition isinf (y : spec_float) : bool :=
  match y with S754_infinity _ => true | _ => false end.

(** [np.isneginf]: the negative infinity (sign bit set). *)
Definition isneginf (y : spec_float) : bool :=
  match y with S754_infinity true => true | _ => false end.

(** [m1 | m2] on boolean arrays of one length. *)
Definition mask_or (m1 m2 : list bool) : list bool :=
  map (fun p : bool * bool => fst p || snd p) (combine m1 m2).

(** [ys[mask] = v]. *)
Definition setitem_mask (ys : list spec_float) (mask : list bool)
    (v : spec_float) : list spec_float :=
  map (fun p : spec_float * bool => if snd p then v else fst p)
    (combine ys mask).

(** Lines 167-168: the series handed to [ax.plot], or the [TypeError] of
    an item assignment on a scalar. *)
Definition plotted_series (f_lambda : list spec_float -> value)
    (x_vals : list spec_float) : Exn + list spec_float :=
  match f_lambda x_vals with
  | array y_vals =>
      inr (setitem_mask y_vals
             (mask_or (map isinf y_vals) (map isneginf y_vals)) nan)
  | scalar _ => inl "object does not support item assignment"
  end.

End Np.

(** ** A small engine for worked examples

    A table of the answers SymPy gives on a few inputs, enough to replay
    the examples of the documentation: [1/x], [sin(x)], the constant [0],
    integer bounds and the two infinities; two inputs on which an engine
    call outside of every [try] statement raises: [1/(x-y)], whose
    singularity [y] is neither inside nor outside an interval of numbers,
    and the relation [x>0], which has no truth value; and [tan(x)], whose
    singularities are listed without end, [pi/2] and [3*pi/2] first. *)

Module Demo.

Inductive expr : Type :=
| Int (n : Z)          (* an integer constant *)
| oo                   (* +infinity *)
| neg_oo               (* -infinity *)
| Recip_x              (* 1/x *)
| Sin_x                (* sin(x) *)
| AccumBounds          (* AccumBounds(-1, 1) *)
| Sym_y                (* the symbol y *)
| Recip_x_minus_y      (* 1/(x - y) *)
| Gt_x_zero            (* the relation x > 0 *)
| Tan_x                (* tan(x) *)
| Pi_half              (* pi/2 *)
| Three_pi_half.       (* 3*pi/2 *)

Definition demo_parse (ctx : ParseCtx) (text : string) : Exn + expr :=
  match ctx with
  | FunctionText =>
      if String.eqb text "1/x" then inr Recip_x
      else if String.eqb text "sin(x)" then inr Sin_x
      else if String.eqb text "0" then inr (Int 0)
      else if String.eqb text "1/(x-y)" then inr Recip_x_minus_y
      else if String.eqb text "x>0" then inr Gt_x_zero
      else if String.eqb text "tan(x)" then inr Tan_x
      else inl "invalid syntax"
  | BoundText =>
      if String.eqb text "oo" then inr oo
      else if String.eqb text "-oo" then inr neg_oo
      else if String.eqb text "-1" then inr (Int (-1))
      else if String.eqb text "0" then inr (Int 0)
      else if String.eqb text "1" then inr (Int 1)
      else if String.eqb text "2" then inr (Int 2)
      else if String.eqb text "5" then inr (Int 5)
      else inl "invalid syntax"
  end.

Definition demo_singularities (f : expr) : Exn + Points expr :=
  match f with
  | Recip_x => inr (py_list [Int 0])
  | Sin_x => inr (py_list [])
  | Int _ => inr (py_list [])
  | Recip_x_minus_y => inr (py_list [Sym_y])
  | Tan_x => inr (mkPoints [Pi_half; Three_pi_half] endless)
  | _ => inl "NotImplementedError"
  end.

Definition demo_limit (f point : expr) (d : Dir) : Exn + expr :=
  match f, point, d with
  | Recip_x, Int 0, dir_plus => inr oo
  | Recip_x, Int 0, dir_minus => inr neg_oo
  | Recip_x, Int 1, _ => inr (Int 1)
  | Recip_x, oo, _ => inr (Int 0)
  | Recip_x, neg_oo, _ => inr (Int 0)
  | Sin_x, oo, _ => inr AccumBounds
  | Sin_x, neg_oo, _ => inr AccumBounds
  | Sin_x, Int 0, _ => inr (Int 0)
  | Int n, _, _ => inr (Int n)
  | _, _, _ => inl "NotImplementedError"
  end.

Definition demo_is_infinite (e : expr) : fuzzy :=
  match e with
  | oo | neg_oo => Some true
  | Int _ => Some false
  | _ => None
  end.

Definition demo_is_real (e : expr) : fuzzy :=
  match e with
  | Int _ => Some true
  | oo | neg_oo => Some false
  | _ => None
  end.

Definition demo_interval_error (a b : expr) : option Exn := None.

Definition demo_contains (p : expr) (i : Interval expr) : Exn + bool :=
  match p, start i, end_ i with
  | Int n, Int a, Int b =>
      inr ((if left_open i then a <? n else a <=? n)%Z
           && (if right_open i then n <? b else n <=? b)%Z)
  | Pi_half, Int a, Int b => inr ((a <=? 1)%Z && (2 <=? b)%Z)
  | Three_pi_half, Int a, Int b => inr ((a <=? 4)%Z && (5 <=? b)%Z)
  | Sym_y, _, _ => inl "did not evaluate to a bool"
  | _, _, _ => inr false
  end.

Definition demo_latex (e : expr) : string :=
  match e with
  | Int n => NilZero.string_of_int (Z.to_int n)
  | oo => "\infty"
  | neg_oo => "-\infty"
  | Recip_x => "\frac{1}{x}"
  | Sin_x => "\sin{\left(x \right)}"
  | AccumBounds => "\left\langle -1, 1\right\rangle"
  | Sym_y => "y"
  | Recip_x_minus_y => "\frac{1}{x - y}"
  | Gt_x_zero => "x > 0"
  | Tan_x => "\tan{\left(x \right)}"
  | Pi_half => "\frac{\pi}{2}"
  | Three_pi_half => "\frac{3 \pi}{2}"
  end.

Definition demo_evalf (e : expr) : Exn + Q :=
  match e with
  | Int n => inr (inject_Z n)
  | _ => inl "cannot compare"
  end.

Definition demo_bool (e : expr) : Exn + bool :=
  match e with
  | Int 0 => inr false
  | Gt_x_zero => inl "cannot determine truth value of Relational"
  | _ => inr true
  end.

Definition engine : Engine expr :=
  mkEngine expr demo_parse demo_singularities demo_limit demo_is_infinite
    demo_is_real demo_interval_error demo_contains demo_latex demo_evalf
    demo_bool.

(** An engine whose singularity and limit routines always raise. *)
Definition failing_engine : Engine expr :=
  mkEngine expr demo_parse (fun _ => inl "NotImplementedError")
    (fun _ _ _ => inl "NotImplementedError") demo_is_infinite
    demo_is_real demo_interval_error demo_contains demo_latex demo_evalf
    demo_bool.

(** The values a lambdified [1/x] takes on an array, by kind of sample:
    the reciprocal of a zero is the infinity of its sign, the reciprocal of
    an infinity is a zero; the other samples are left as they are, their
    exact quotient playing no part in the examples. *)
Definition recip_like (x : spec_float) : spec_float :=
  match x with
  | S754_zero s => S754_infinity s
  | S754_infinity s => S754_zero s
  | other => other
  end.

End Demo.

(** ** Vocabulary of the properties *)

Section Vocabulary.

Context {Expr : Type}.

(** Kinds of events. *)
Definition is_singularities_event (ev : Event Expr) : bool :=
  match ev with EvSingularities _ => true | _ => false end.

Definition is_contains_event (ev : Event Expr) : bool :=
  match ev with EvContains _ _ => true | _ => false end.

Definition is_limit_event (ev : Event Expr) : bool :=
  match ev with EvLimit _ _ _ => true | _ => false end.


Definition is_check_event (ev : Event Expr) : bool :=
  match ev with EvCheck _ _ _ _ => true | _ => false end.

Definition is_plot_event (ev : Event Expr) : bool :=
  match ev with EvPlot _ _ _ => true | _ => false end.

(** No event of the trace is of the given kind. *)
Definition never (kind : Event Expr -> bool) (t : list (Event Expr)) : Prop :=
  forall ev, In ev t -> kind ev = false.

Context (E : Engine Expr).

(** A bound is infinite when its [is_infinite] is [True]. *)
Definition infinite (v : Expr) : bool := truthy (is_infinite E v).

(** The one-sided limit was computed and is infinite. *)
Definition limit_is_infinite (f point : Expr) (d : Dir) : bool :=
  match limit E f point d with
  | inr l => infinite l
  | inl _ => false
  end.

(** The test of lines 63-68 succeeds: open left end, infinite limit. *)
Definition left_check_fires (interval_type : string) (f a_sym : Expr) : bool :=
  str_in interval_type [tag_open; tag_left_open]
  && limit_is_infinite f a_sym dir_plus.

(** The test of lines 72-77 succeeds, when it is reached. *)
Definition right_check_fires (interval_type : string) (f b_sym : Expr) : bool :=
  str_in interval_type [tag_open; tag_right_open]
  && limit_is_infinite f b_sym dir_minus.

(** The value of the variable [discontinuities] after lines 40-43. *)
Definition computed_set (f : Expr) : Points Expr :=
  match singularities E f with
  | inr points => points
  | inl _ => py_list []
  end.

(** Its points, in the order the loop receives them. *)
Definition computed_singularities (f : Expr) : list Expr :=
  listed (computed_set f).



(** The loop of lines 51-54 does not go past the point: the test is [True]
    or it raises. *)
Definition leaves_loop (i : Interval Expr) (p : Expr) : bool :=
  match contains E p i with
  | inr false => false
  | _ => true
  end.

(** [sympy.Interval] accepts the two bounds. *)
Definition interval_built (a_sym b_sym : Expr) : Prop :=
  interval_error E a_sym b_sym = None.

(** How the loop of lines 51-54 ends on the points of a list: at the first
    point it does not go past, by the [return] of line 54 or by the
    exception of the test; normally when it goes past every point. *)
Definition loop_exit (f a_sym b_sym : Expr) (i : Interval Expr)
    (points : list Expr) : Outcome (@Result Expr) unit :=
  match find (leaves_loop i) points with
  | Some p =>
      match contains E p i with
      | inl e => Raised e
      | inr _ =>
          Returned (verdict_not_uc, reason_discontinuous E a_sym b_sym p,
                    Some f)
      end
  | None => Normal tt
  end.

(** How lines 50-56 end. *)
Definition closed_exit (f a_sym b_sym : Expr) (s : Points Expr)
  : Outcome (@Result Expr) unit :=
  match interval_error E a_sym b_sym with
  | Some e => Raised e
  | None =>
      match loop_exit f a_sym b_sym (sympy_Interval a_sym b_sym) (listed s)
      with
      | Normal _ =>
          match ending s with
          | exhausted =>
              Returned (verdict_uc, reason_heine_cantor E a_sym b_sym, Some f)
          | iter_raises e => Raised e
          | endless => Diverged
          end
      | other => other
      end
  end.

(** The engine with every exception of [singularities] replaced by an
    empty set of points, and every exception of [limit] by the value
    [finite_limit]. *)
Definition without_exceptions (finite_limit : Expr) : Engine Expr :=
  mkEngine Expr
    (parse_expr E)
    (fun f => match singularities E f with
              | inl _ => inr (py_list [])
              | inr points => inr points
              end)
    (fun f point d => match limit E f point d with
                      | inl _ => inr finite_limit
                      | inr l => inr l
                      end)
    (is_infinite E) (is_real E) (interval_error E) (contains E) (latex E)
    (evalf E) (expr_bool E).

End Vocabulary.

(** ** Texts *)

Module Text.

(** [old in s], for a non-empty [old]. *)
Fixpoint occurs (old s : string) : bool :=
  String.prefix old s
  || match s with
     | EmptyString => false
     | String _ s' => occurs old s'
     end.

(** Every character of [s] satisfies [p]. *)
Fixpoint all_chars (p : ascii -> bool) (s : string) : bool :=
  match s with
  | EmptyString => true
  | String c s' => p c && all_chars p s'
  end.

(** [str.isascii()] on a character. *)
Definition is_ascii (c : ascii) : bool := (nat_of_ascii c <? 128)%nat.

(** An ASCII upper-case letter. *)
Definition is_upper (c : ascii) : bool :=
  let n := nat_of_ascii c in (65 <=? n)%nat && (n <=? 90)%nat.

(** What a character may be after lines 118-119: not the letter [e], and
    no upper-case letter but [E]. *)
Definition normalized_char (c : ascii) : bool :=
  negb (Ascii.eqb c "e") && (negb (is_upper c) || Ascii.eqb c "E").

(** [replace('e', 'E')] on one character. *)
Definition e_to_E (c : ascii) : ascii :=
  if Ascii.eqb c "e" then "E"%char else c.

Fixpoint map_chars (g : ascii -> ascii) (s : string) : string :=
  match s with
  | EmptyString => EmptyString
  | String c s' => String (g c) (map_chars g s')
  end.

End Text.
Import Text.

(** ** More vocabulary *)

Section MoreVocabulary.

Context {Expr : Type}.

(** The items a [for] loop visits when its body leaves the loop at the
    first item satisfying [hit]: that item and the ones before it. *)
Fixpoint up_to_first_hit (hit : Expr -> bool) (items : list Expr) : list Expr :=
  match items with
  | [] => []
  | x :: rest => x :: if hit x then [] else up_to_first_hit hit rest
  end.

(** The engine with another [singularities] routine. *)
Definition with_singularities (E : Engine Expr)
    (routine : Expr -> Exn + Points Expr) : Engine Expr :=
  mkEngine Expr (parse_expr E) routine (limit E) (is_infinite E) (is_real E)
    (interval_error E) (contains E) (latex E) (evalf E) (expr_bool E).

End MoreVocabulary.

Section ScriptVocabulary.

Context {Expr : Type}.

(** The engine calls of lines 115-131: parsing a bound, evaluating one. *)
Definition is_bound_query (ev : Event Expr) : bool :=
  match ev with
  | EvParse BoundText _ => true
  | EvEvalf _ => true
  | _ => false
  end.

(** What the script shows after the call of the classifier, up to the
    chart (lines 140-145). *)
Definition verdict_display (r : @Result Expr) : list (Event Expr) :=
  [EvUi (banner_widget (verdict r)); EvUi (st_markdown "### 판별 근거");
   EvUi (st_info (reason r))].

End ScriptVocabulary.

(** ** The chart (lines 149-195) *)

Module Chart.

(** Python's [float] and NumPy's [float64]: IEEE 754 binary64. *)
Definition prec : Z := 53.
Definition emax : Z := 1024.

Definition float_of_Z (n : Z) : spec_float := binary_normalize prec emax n 0 false.

Definition fadd : spec_float -> spec_float -> spec_float := SFadd prec emax.
Definition fsub : spec_float -> spec_float -> spec_float := SFsub prec emax.
Definition fmul : spec_float -> spec_float -> spec_float := SFmul prec emax.

(** The literals [10.0], [20.0] and [0.5]. *)
Definition ten : spec_float := float_of_Z 10.
Definition twenty : spec_float := float_of_Z 20.
Definition half : spec_float := binary_normalize prec emax 1 (-1) false.

(** [np.isnan]. *)
Definition isnan (y : spec_float) : bool :=
  match y with S754_nan => true | _ => false end.

(** What the Matplotlib calls are given: the two arrays and the label of
    [ax.plot], the positions of the dashed vertical lines, and the vertical
    range when [ax.set_ylim] is called. *)
Record Figure : Type := mkFigure {
  fig_x : list spec_float;
  fig_y : list spec_float;
  fig_label : string;
  fig_vlines : list spec_float;
  fig_ylim : option (spec_float * spec_float)
}.

(** The library routines of the chart. Each of them runs inside the [try]
    statement, so each may raise. *)
Record Toolkit (Expr : Type) : Type := mkToolkit {
  (** [float(e.evalf())] *)
  to_float : Expr -> Exn + spec_float;
  (** [sympy.lambdify(x, f, 'numpy')], and the call of the function it
      gives on an array *)
  lambdify : Expr -> Exn + (list spec_float -> Exn + Np.value);
  (** [np.linspace(lo, hi, 500)] *)
  linspace : spec_float -> spec_float -> list spec_float;
  (** [np.percentile(ys, [5, 95])] *)
  percentile : list spec_float -> Exn + (spec_float * spec_float);
  (** the Matplotlib calls of lines 171-182 *)
  axes : Figure -> Exn + unit;
  (** [ax.set_ylim([y_min, y_max])] *)
  set_ylim : spec_float -> spec_float -> Exn + unit;
  (** [st.pyplot(fig)] *)
  pyplot : Figure -> Exn + unit
}.
Arguments to_float {Expr} _ _.
Arguments lambdify {Expr} _ _.
Arguments linspace {Expr} _ _ _.
Arguments percentile {Expr} _ _.
Arguments axes {Expr} _ _.
Arguments set_ylim {Expr} _ _ _.
Arguments pyplot {Expr} _ _.

(** How the [try] statement ends: with the figure shown, or with the
    message of [st.error]. *)
Inductive Shown : Type :=
| Pyplot (fig : Figure)
| ChartError (msg : string).

(** Sequencing of steps that may raise. *)
Definition and_then {A B : Type} (r : Exn + A) (k : A -> Exn + B) : Exn + B :=
  match r with
  | inl e => inl e
  | inr a => k a
  end.

Declare Scope try_scope.
Delimit Scope try_scope with try.
Notation "x <-- r ;; k" := (and_then r (fun x => k))
  (at level 61, r at next level, right associativity) : try_scope.
Open Scope try_scope.

Section Draw.

Context {Expr : Type} (E : Engine Expr) (N : Toolkit Expr).

(** Lines 151-163: the ends of the plotting window. *)
Definition plot_window (a_sym b_sym : Expr) : Exn + (spec_float * spec_float) :=
  if truthy (is_infinite E a_sym) && truthy (is_infinite E b_sym) then
    inr (SFopp ten, ten)
  else if truthy (is_infinite E a_sym) then
    plot_b_num <-- to_float N b_sym ;;
    inr (fsub plot_b_num twenty, plot_b_num)
  else if truthy (is_infinite E b_sym) then
    plot_a_num <-- to_float N a_sym ;;
    inr (plot_a_num, fadd plot_a_num twenty)
  else
    plot_a_num <-- to_float N a_sym ;;
    plot_b_num <-- to_float N b_sym ;;
    inr (plot_a_num, plot_b_num).

(** Lines 175-176. *)
Definition markers (a_sym b_sym : Expr) (plot_a_num plot_b_num : spec_float)
  : list spec_float :=
  ((if negb (truthy (is_infinite E a_sym)) then [plot_a_num] else [])
   ++ (if negb (truthy (is_infinite E b_sym)) then [plot_b_num] else []))%list.

(** Line 185: [y_vals[~np.isnan(y_vals)]]. *)
Definition valid_y (y_vals : list spec_float) : list spec_float :=
  filter (fun y => negb (isnan y)) y_vals.

(** Lines 186-191. *)
Definition y_limits (y_vals : list spec_float)
  : Exn + option (spec_float * spec_float) :=
  if (0 <? length (valid_y y_vals))%nat then
    q <-- percentile N (valid_y y_vals) ;;
    let q1 := fst q in
    let q3 := snd q in
    let iqr := fsub q3 q1 in
    let y_min := fsub q1 (fmul half iqr) in
    let y_max := fadd q3 (fmul half iqr) in
    _ <-- set_ylim N y_min y_max ;;
    inr (Some (y_min, y_max))
  else inr None.

(** Lines 150-193: the body of the [try] statement. *)
Definition draw (func_sympy a_sym b_sym : Expr) : Exn + Figure :=
  window <-- plot_window a_sym b_sym ;;
  let plot_a_num := fst window in
  let plot_b_num := snd window in
  f_lambda <-- lambdify N func_sympy ;;
  let x_vals := linspace N plot_a_num plot_b_num in
  y_raw <-- f_lambda x_vals ;;
  y_vals <-- Np.plotted_series (fun _ => y_raw) x_vals ;;
  let label := "$f(x) = " ++ latex E func_sympy ++ "$" in
  let lines := markers a_sym b_sym plot_a_num plot_b_num in
  _ <-- axes N (mkFigure x_vals y_vals label lines None) ;;
  ylim <-- y_limits y_vals ;;
  let fig := mkFigure x_vals y_vals label lines ylim in
  _ <-- pyplot N fig ;;
  inr fig.

(** Lines 149-195. *)
Definition chart_block (func_sympy a_sym b_sym : Expr) : Shown :=
  match draw func_sympy a_sym b_sym with
  | inr fig => Pyplot fig
  | inl e => ChartError ("그래프를 그리는 중 오류가 발생했습니다: " ++ e)
  end.

End Draw.

(** A float that is neither an infinity nor NaN. *)
Definition is_finite (y : spec_float) : bool :=
  negb (Np.isinf y) && negb (isnan y).

(** The value drawn for an evaluated one. *)
Definition drawn (y : spec_float) : spec_float :=
  if Np.isinf y then Np.nan else y.

End Chart.

(** ** Library routines for worked examples of the chart *)

Module DemoChart.

Import Chart.

Definition demo_to_float (e : Demo.expr) : Exn + spec_float :=
  match e with
  | Demo.Int n => inr (float_of_Z n)
  | Demo.oo => inr (S754_infinity false)
  | Demo.neg_oo => inr (S754_infinity true)
  | _ => inl "Cannot convert expression to float"
  end.

(** [1/x] on an array, and the integer constants, whose lambdified
    function gives the constant itself and no array. *)
Definition demo_lambdify (f : Demo.expr)
  : Exn + (list spec_float -> Exn + Np.value) :=
  match f with
  | Demo.Recip_x => inr (fun xs => inr (Np.array (map Demo.recip_like xs)))
  | Demo.Int n => inr (fun _ => inr (Np.scalar (float_of_Z n)))
  | _ => inl "NotImplementedError"
  end.

(** [np.linspace(lo, hi, 500)]: [lo + i * step] with
    [step = (hi - lo) / 499], the last sample being [hi] itself. *)
Definition demo_linspace (lo hi : spec_float) : list spec_float :=
  let step := SFdiv prec emax (fsub hi lo) (float_of_Z 499) in
  (map (fun i => fadd (fmul (float_of_Z (Z.of_nat i)) step) lo) (seq 0 499)
   ++ [hi])%list.

Definition fleb (x y : spec_float) : bool :=
  match SFcompare x y with
  | Some Lt | Some Eq => true
  | _ => false
  end.

Fixpoint insert_sorted (y : spec_float) (ys : list spec_float)
  : list spec_float :=
  match ys with
  | [] => [y]
  | z :: rest => if fleb y z then y :: ys else z :: insert_sorted y rest
  end.

Definition sort (ys : list spec_float) : list spec_float :=
  fold_right insert_sorted [] ys.

(** The samples of rank 5% and 95% in increasing order, without the
    interpolation between neighbours that NumPy adds. *)
Definition demo_percentile (ys : list spec_float)
  : Exn + (spec_float * spec_float) :=
  let sorted := sort ys in
  let n := length ys in
  inr (nth (5 * (n - 1) / 100) sorted Np.nan,
       nth (95 * (n - 1) / 100) sorted Np.nan).

Definition toolkit : Toolkit Demo.expr :=
  mkToolkit Demo.expr demo_to_float demo_lambdify demo_linspace
    demo_percentile (fun _ => inr tt) (fun _ _ => inr tt) (fun _ => inr tt).

(** The chart of [1/x] between the bounds 0 and 1, as these routines
    make it. *)
Definition recip_figure : Figure :=
  Eval vm_compute in
    match chart_block Demo.engine toolkit Demo.Recip_x
            (Demo.Int 0) (Demo.Int 1) with
    | Pyplot fig => fig
    | ChartError _ => mkFigure [] [] EmptyString [] None
    end.

End DemoChart.
Import Chart.

(** ** The font loader (lines 19-28) *)

Module Font.

(** The items of a [glob] pattern: [*], a bracketed set of characters, or
    a character standing for itself. *)
Inductive item : Type :=
| Star
| OneOf (cs : list ascii)
| Lit (c : ascii).

(** ['*.[tT][tT][fF]'] and ['*.[oO][tT][fF]']. *)
Definition pattern_ttf : list item :=
  [Star; Lit "."; OneOf ["t"; "T"]; OneOf ["t"; "T"]; OneOf ["f"; "F"]]%char.

Definition pattern_otf : list item :=
  [Star; Lit "."; OneOf ["o"; "O"]; OneOf ["t"; "T"]; OneOf ["f"; "F"]]%char.

(** [fnmatch.fnmatchcase(name, pattern)]: the whole name is matched. *)
Fixpoint fnmatch (pattern : list item) (name : string) : bool :=
  match pattern with
  | [] => match name with EmptyString => true | _ => false end
  | Star :: pattern' =>
      (fix star (s : string) : bool :=
         fnmatch pattern' s
         || match s with
            | EmptyString => false
            | String _ s' => star s'
            end) name
  | OneOf cs :: pattern' =>
      match name with
      | String c s' => existsb (Ascii.eqb c) cs && fnmatch pattern' s'
      | EmptyString => false
      end
  | Lit c0 :: pattern' =>
      match name with
      | String c s' => Ascii.eqb c c0 && fnmatch pattern' s'
      | EmptyString => false
      end
  end.

(** A name that begins with a dot; [glob] leaves such names out for a
    pattern that does not begin with one. *)
Definition ishidden (name : string) : bool :=
  match name with
  | String "."%char _ => true
  | _ => false
  end.

(** [glob.glob(os.path.join('font', pattern))] over the entries of the
    directory, in the order the system lists them. *)
Definition glob (entries : list string) (pattern : list item) : list string :=
  map (fun name => "font/" ++ name)
    (filter (fun name => negb (ishidden name) && fnmatch pattern name) entries).

(** [fm.fontManager.addfont] and [fm.FontProperties(fname=...).get_name()]. *)
Record FontManager : Type := mkFontManager {
  addfont : string -> Exn + unit;
  get_name : string -> Exn + string
}.

(** How the call ends: by one of the two early [return]s, with the font
    family set, or by an exception of the font manager. *)
Inductive Loaded : Type :=
| NoFont
| FontSet (font_path font_name : string)
| FontFailed (e : Exn).

(** Line 22. *)
Definition font_files (entries : list string) : list string :=
  (glob entries pattern_ttf ++ glob entries pattern_otf)%list.

(** Lines 25-28, on the path chosen. *)
Definition register (fm : FontManager) (font_path : string) : Loaded :=
  match addfont fm font_path with
  | inl e => FontFailed e
  | inr _ =>
      match get_name fm font_path with
      | inl e => FontFailed e
      | inr font_name => FontSet font_path font_name
      end
  end.

(** [font_dir] is [None] when the path ['font'] does not exist, and else
    the entries of the directory (none when the path is no directory). *)
Definition load_korean_font (fm : FontManager)
    (font_dir : option (list string)) : Loaded :=
  match font_dir with
  | None => NoFont
  | Some entries =>
      match font_files entries with
      | [] => NoFont
      | font_path :: _ => register fm font_path
      end
  end.

(** The name ends with the extension, in any mix of cases. *)
Definition has_extension (ext name : string) : Prop :=
  exists stem e, name = stem ++ e /\ lower e = ext.

(** A name that is not hidden and carries the extension. *)
Definition font_file (ext name : string) : Prop :=
  ishidden name = false /\ has_extension ext name.

(** A font manager that accepts every file and reads the family name
    [NanumGothic] in it, for worked examples. *)
Definition demo_font_manager : FontManager :=
  mkFontManager (fun _ => inr tt) (fun _ => inr "NanumGothic").

End Font.
Import Font.

(** * Properties *)

(** ** Runs *)

Section RunFacts.

Context {Expr R : Type}.

Lemma bind_ret_l (A B : Type) (a : A) (k : A -> Run Expr R B) :
  bind (ret a) k = k a.
Proof. unfold bind, ret. cbn [fst snd app]. destruct (k a); reflexivity. Qed.

Lemma bind_ret_r (A : Type) (m : Run Expr R A) : bind m ret = m.
Proof.
  destruct m as [[a | r | e | |] t]; unfold bind, ret; cbn [fst snd];
    rewrite ?app_nil_r; reflexivity.
Qed.

Lemma bind_assoc (A B C : Type) (m : Run Expr R A) (k : A -> Run Expr R B)
    (h : B -> Run Expr R C) :
  bind (bind m k) h = bind m (fun a => bind (k a) h).
Proof.
  destruct m as [[a | r | e | |] t]; unfold bind; cbn [fst snd];
    try reflexivity.
  destruct (k a) as [[b | r | e | |] t']; cbn [fst snd]; try reflexivity.
  rewrite app_assoc. reflexivity.
Qed.

(** What follows a [return] does not run, and neither [try_except] nor a
    later statement changes what was returned. *)
Lemma bind_returned (A B : Type) (r : R) (t : list (Event Expr))
    (k : A -> Run Expr R B) :
  bind (Returned r, t) k = (Returned r, t).
Proof. reflexivity. Qed.

(** A [try] statement whose body does not raise is its body. *)
Lemma try_except_no_raise (A : Type) (body : Run Expr R A)
    (handler : Exn -> Run Expr R A) :
  (forall e, outcome body <> Raised e) -> try_except body handler = body.
Proof.
  destruct body as [[a | r | e | |] t]; unfold try_except, outcome;
    cbn [fst snd]; intros H; try reflexivity.
  destruct (H e eq_refl).
Qed.

(** A [try] statement whose handler completes or returns lets no
    exception out. *)
Lemma try_except_catches (A : Type) (body : Run Expr R A)
    (handler : Exn -> Run Expr R A) :
  (forall e e', outcome (handler e) <> Raised e') ->
  (forall e, outcome body = Raised e ->
             outcome (try_except body handler) = outcome (handler e))
  /\ forall e', outcome (try_except body handler) = Raised e' -> False.
Proof.
  intros Hhandler. unfold try_except, outcome in *.
  destruct body as [[a | r | e | |] t]; cbn [fst snd]; split;
    try discriminate.
  - intros e0 [= <-]. reflexivity.
  - intros e'. apply Hhandler.
Qed.

End RunFacts.

(** ** The classifier *)

Section ClassifierFacts.

Context {Expr : Type} (E : Engine Expr).

(** *** The loop over the singularities *)

Lemma loop_outcome (f a_sym b_sym : Expr) (i : Interval Expr)
    (points : list Expr) :
  outcome (for_each points (loop_body E f a_sym b_sym i))
  = loop_exit E f a_sym b_sym i points.
Proof.
  unfold loop_exit. induction points as [| q rest IH]; [reflexivity |].
  cbn [for_each find]. unfold leaves_loop at 1.
  unfold loop_body at 1, call_contains, bind at 1 2, outcome.
  cbn [fst snd].
  destruct (contains E q i) as [e | []] eqn:Hq;
    cbn [of_result fst snd return_ ret]; rewrite ?Hq; try reflexivity.
  exact IH.
Qed.

Lemma loop_trace (f a_sym b_sym : Expr) (i : Interval Expr)
    (points : list Expr) :
  forall ev, In ev (trace (for_each points (loop_body E f a_sym b_sym i))) ->
             is_contains_event ev = true.
Proof.
  induction points as [| q rest IH]; [intros ev [] |].
  cbn [for_each]. unfold loop_body at 1, call_contains, bind at 1 2, trace.
  cbn [fst snd].
  destruct (contains E q i) as [e | []];
    cbn [of_result fst snd return_ ret app].
  - intros ev [<- | []]. reflexivity.
  - intros ev [<- | []]. reflexivity.
  - intros ev [<- | Hin]; [reflexivity | exact (IH ev Hin)].
Qed.

(** After the loop: the end of the iteration adds no event. *)
Lemma for_in_run (f a_sym b_sym : Expr) (i : Interval Expr) (s : Points Expr) :
  for_in s (loop_body E f a_sym b_sym i)
  = (match loop_exit E f a_sym b_sym i (listed s) with
     | Normal _ =>
         match ending s with
         | exhausted => Normal tt
         | iter_raises e => Raised e
         | endless => Diverged
         end
     | other => other
     end,
     trace (for_each (listed s) (loop_body E f a_sym b_sym i))).
Proof.
  unfold for_in. rewrite <- loop_outcome. unfold bind, outcome, trace.
  destruct (for_each (listed s) (loop_body E f a_sym b_sym i))
    as [[[] | r | e | |] t]; cbn [fst snd]; try reflexivity.
  destruct (ending s); cbn [fst snd ret raise diverge];
    rewrite app_nil_r; reflexivity.
Qed.

(** *** The blocks *)

Lemma closed_block_infinite (f a_sym b_sym : Expr) (s : Points Expr) :
  infinite E a_sym = true \/ infinite E b_sym = true ->
  closed_block E f a_sym b_sym s =
  (Returned (verdict_cannot_classify, reason_closed_infinite, Some f), []).
Proof.
  unfold closed_block, infinite. intros H.
  replace (truthy (is_infinite E a_sym) || truthy (is_infinite E b_sym))
    with true; [reflexivity |].
  symmetry. apply orb_true_iff. exact H.
Qed.

(** With bounds that are not infinite, and an interval that is built. *)
Lemma closed_block_built (f a_sym b_sym : Expr) (s : Points Expr) :
  infinite E a_sym = false -> infinite E b_sym = false ->
  interval_error E a_sym b_sym = None ->
  closed_block E f a_sym b_sym s
  = (closed_exit E f a_sym b_sym s,
     trace (for_each (listed s)
              (loop_body E f a_sym b_sym (sympy_Interval a_sym b_sym)))).
Proof.
  unfold closed_block, closed_exit, call_Interval, infinite.
  intros -> -> ->. cbn [orb].
  rewrite !bind_ret_l, for_in_run. unfold bind, trace. cbn [fst snd].
  destruct (loop_exit E f a_sym b_sym (sympy_Interval a_sym b_sym)
              (listed s)) as [[] | r | e | |]; try reflexivity.
  destruct (ending s); cbn [fst snd return_]; rewrite ?app_nil_r;
    reflexivity.
Qed.

(** With bounds that are not infinite, and an interval that is refused. *)
Lemma closed_block_refused (f a_sym b_sym : Expr) (s : Points Expr)
    (e : Exn) :
  infinite E a_sym = false -> infinite E b_sym = false ->
  interval_error E a_sym b_sym = Some e ->
  closed_block E f a_sym b_sym s = (Raised e, []).
Proof.
  unfold closed_block, call_Interval, infinite.
  intros -> -> ->. reflexivity.
Qed.

Lemma closed_block_finite (f a_sym b_sym : Expr) (s : Points Expr) :
  infinite E a_sym = false -> infinite E b_sym = false ->
  outcome (closed_block E f a_sym b_sym s) = closed_exit E f a_sym b_sym s.
Proof.
  intros Ha Hb.
  destruct (interval_error E a_sym b_sym) as [e |] eqn:Hi.
  - rewrite (closed_block_refused _ _ _ _ _ Ha Hb Hi).
    unfold closed_exit. rewrite Hi. reflexivity.
  - rewrite (closed_block_built _ _ _ _ Ha Hb Hi). reflexivity.
Qed.

Lemma closed_block_trace (f a_sym b_sym : Expr) (s : Points Expr) :
  forall ev, In ev (trace (closed_block E f a_sym b_sym s)) ->
             is_contains_event ev = true.
Proof.
  destruct (infinite E a_sym) eqn:Ha; [| destruct (infinite E b_sym) eqn:Hb].
  - rewrite closed_block_infinite by auto. intros ev [].
  - rewrite closed_block_infinite by auto. intros ev [].
  - destruct (interval_error E a_sym b_sym) as [e |] eqn:Hi.
    + rewrite (closed_block_refused _ _ _ _ _ Ha Hb Hi). intros ev [].
    + rewrite (closed_block_built _ _ _ _ Ha Hb Hi). unfold trace at 1.
      cbn [snd]. apply loop_trace.
Qed.

Ltac run_open_block :=
  unfold open_block, left_endpoint, right_endpoint, left_check_fires,
    right_check_fires, limit_is_infinite, infinite, call_limit, bind,
    try_except, ret, return_, outcome, trace;
  match goal with
  | |- context [limit E ?g ?a dir_plus] =>
      destruct (limit E g a dir_plus) as [ea | la];
      [| destruct (truthy (is_infinite E la)) eqn:?]
  end;
  match goal with
  | |- context [limit E ?g ?b dir_minus] =>
      destruct (limit E g b dir_minus) as [eb | lb];
      [| destruct (truthy (is_infinite E lb)) eqn:?]
  end;
  match goal with
  | |- context [str_in ?tag [tag_open; tag_left_open]] =>
      destruct (str_in tag [tag_open; tag_left_open])
  end;
  match goal with
  | |- context [str_in ?tag [tag_open; tag_right_open]] =>
      destruct (str_in tag [tag_open; tag_right_open])
  end;
  repeat (progress (cbn [fst snd app andb negb of_result];
                    try match goal with
                        | H : truthy _ = _ |- _ => rewrite H
                        end)).

Lemma open_block_outcome (interval_type : string) (f a_sym b_sym : Expr) :
  outcome (open_block E interval_type f a_sym b_sym) =
  Returned (if left_check_fires E interval_type f a_sym then
              (verdict_not_uc, reason_left_endpoint E a_sym, Some f)
            else if right_check_fires E interval_type f b_sym then
              (verdict_not_uc, reason_right_endpoint E b_sym, Some f)
            else (verdict_uc, reason_finite_limits, Some f)).
Proof. run_open_block; reflexivity. Qed.

Lemma open_block_trace (interval_type : string) (f a_sym b_sym : Expr) :
  trace (open_block E interval_type f a_sym b_sym) =
  ((if str_in interval_type [tag_open; tag_left_open]
    then [EvLimit f a_sym dir_plus] else [])
   ++
   (if negb (left_check_fires E interval_type f a_sym)
       && str_in interval_type [tag_open; tag_right_open]
    then [EvLimit f b_sym dir_minus] else []))%list.
Proof. run_open_block; reflexivity. Qed.

(** *** The whole function *)

Lemma check_unparsed (func_str interval_type : string) (a_sym b_sym : Expr)
    (e : Exn) :
  parse_expr E FunctionText func_str = inl e ->
  check_uniform_continuity E func_str interval_type a_sym b_sym =
  (Normal (verdict_error, reason_parse_error e, None),
   [EvParse FunctionText func_str]).
Proof.
  intros Hparse.
  unfold check_uniform_continuity, def_, body, call_parse, try_except at 1.
  cbn [fst snd]. rewrite Hparse. reflexivity.
Qed.

Lemma check_parsed (func_str interval_type : string) (f a_sym b_sym : Expr) :
  parse_expr E FunctionText func_str = inr f ->
  check_uniform_continuity E func_str interval_type a_sym b_sym =
  (match outcome (if_else_block E interval_type f a_sym b_sym
                    (computed_set E f)) with
   | Normal _ => Normal (verdict_fallback, reason_fallback, Some f)
   | Returned r => Normal r
   | Raised e => Raised e
   | Stopped => Stopped
   | Diverged => Diverged
   end,
   EvParse FunctionText func_str :: EvSingularities f
     :: trace (if_else_block E interval_type f a_sym b_sym
                 (computed_set E f))).
Proof.
  intros Hparse.
  unfold check_uniform_continuity, def_, body, compute_discontinuities,
    call_parse, call_singularities, computed_set, try_except, bind,
    outcome, trace.
  cbn [fst snd]. rewrite Hparse. cbn [of_result fst snd].
  destruct (singularities E f) as [e | points]; cbn [of_result fst snd ret app];
    match goal with
    | |- context [if_else_block E ?tag ?g ?a ?b ?l] =>
        destruct (if_else_block E tag g a b l) as [[u | r | e' | |] t]
    end; cbn [fst snd return_ app]; rewrite ?app_nil_r; reflexivity.
Qed.


(** The five verdict strings are pairwise different. *)
Lemma verdicts_distinct :
  NoDup [verdict_uc; verdict_not_uc; verdict_cannot_classify;
         verdict_error; verdict_fallback].
Proof.
  repeat constructor; cbn [In]; intros H;
    repeat (destruct H as [H | H]; [discriminate H |]); exact H.
Qed.

Lemma loop_exit_returned (f a_sym b_sym : Expr) (i : Interval Expr)
    (points : list Expr) (r : Result) :
  loop_exit E f a_sym b_sym i points = Returned r ->
  exists p, In p points /\ contains E p i = inr true
            /\ r = (verdict_not_uc, reason_discontinuous E a_sym b_sym p,
                    Some f).
Proof.
  unfold loop_exit.
  destruct (find (leaves_loop E i) points) as [p |] eqn:Hfind;
    [| discriminate].
  apply find_some in Hfind. destruct Hfind as [Hin Hp].
  unfold leaves_loop in Hp.
  destruct (contains E p i) as [e | []] eqn:Hc; try discriminate;
    try discriminate Hp.
  intros [= <-]. exists p. auto.
Qed.

Lemma loop_exit_not_stopped (f a_sym b_sym : Expr) (i : Interval Expr)
    (points : list Expr) :
  loop_exit E f a_sym b_sym i points <> Stopped
  /\ loop_exit E f a_sym b_sym i points <> Diverged.
Proof.
  unfold loop_exit. destruct (find (leaves_loop E i) points) as [p |];
    [destruct (contains E p i) |]; split; discriminate.
Qed.

(** No path through the [if]/[else] runs to its end, and a path that ends
    at a [return] carries one of three verdicts and the parsed
    expression. *)
Lemma if_else_block_ends (interval_type : string) (f a_sym b_sym : Expr)
    (s : Points Expr) :
  (forall u, outcome (if_else_block E interval_type f a_sym b_sym s)
             <> Normal u)
  /\ outcome (if_else_block E interval_type f a_sym b_sym s) <> Stopped
  /\ forall r,
       outcome (if_else_block E interval_type f a_sym b_sym s) = Returned r ->
       exists v j, r = (v, j, Some f)
                   /\ In v [verdict_uc; verdict_not_uc;
                            verdict_cannot_classify].
Proof.
  unfold if_else_block.
  destruct (String.eqb interval_type tag_closed).
  - destruct (infinite E a_sym) eqn:Ha; [| destruct (infinite E b_sym) eqn:Hb].
    + rewrite closed_block_infinite by auto. unfold outcome. cbn [fst].
      repeat split; try discriminate.
      intros r [= <-]. do 2 eexists. split; [reflexivity | cbn; auto].
    + rewrite closed_block_infinite by auto. unfold outcome. cbn [fst].
      repeat split; try discriminate.
      intros r [= <-]. do 2 eexists. split; [reflexivity | cbn; auto].
    + rewrite (closed_block_finite _ _ _ _ Ha Hb). unfold closed_exit.
      destruct (interval_error E a_sym b_sym) as [e |];
        [repeat split; discriminate |].
      destruct (loop_exit E f a_sym b_sym (sympy_Interval a_sym b_sym)
                  (listed s)) as [[] | r0 | e | |] eqn:Hloop.
      * destruct (ending s); repeat split; try discriminate.
        intros r [= <-]. do 2 eexists. split; [reflexivity | cbn; auto].
      * repeat split; try discriminate. intros r [= <-].
        destruct (loop_exit_returned _ _ _ _ _ _ Hloop) as (p & _ & _ & ->).
        do 2 eexists. split; [reflexivity | cbn; auto].
      * repeat split; discriminate.
      * destruct (loop_exit_not_stopped f a_sym b_sym
                    (sympy_Interval a_sym b_sym) (listed s)) as [H _].
        destruct (H Hloop).
      * destruct (loop_exit_not_stopped f a_sym b_sym
                    (sympy_Interval a_sym b_sym) (listed s)) as [_ H].
        destruct (H Hloop).
  - rewrite open_block_outcome. repeat split; try discriminate.
    intros r [= <-].
    destruct (left_check_fires E interval_type f a_sym);
      [| destruct (right_check_fires E interval_type f b_sym)];
      do 2 eexists; (split; [reflexivity | cbn; auto]).
Qed.

(** On a tag other than [[a, b]] the block ends at a [return]. *)
Lemma open_block_returns (interval_type : string) (f a_sym b_sym : Expr) :
  exists v j,
    outcome (open_block E interval_type f a_sym b_sym)
    = Returned (v, j, Some f)
    /\ In v [verdict_uc; verdict_not_uc].
Proof.
  rewrite open_block_outcome.
  destruct (left_check_fires E interval_type f a_sym);
    [| destruct (right_check_fires E interval_type f b_sym)];
    do 2 eexists; (split; [reflexivity | cbn; auto]).
Qed.

(** What a call that returns has returned, when the text parses. *)
Lemma check_parsed_returns (func_str interval_type : string)
    (f a_sym b_sym : Expr) (r : Result) :
  parse_expr E FunctionText func_str = inr f ->
  outcome (check_uniform_continuity E func_str interval_type a_sym b_sym)
  = Normal r ->
  exists v j,
    r = (v, j, Some f)
    /\ In v [verdict_uc; verdict_not_uc; verdict_cannot_classify].
Proof.
  intros Hparse. rewrite (check_parsed _ _ _ _ _ Hparse).
  destruct (if_else_block_ends interval_type f a_sym b_sym
              (computed_set E f)) as (Hnormal & _ & Hret).
  unfold outcome at 1. cbn [fst].
  destruct (outcome (if_else_block E interval_type f a_sym b_sym
                       (computed_set E f))) as [u | r0 | e | |];
    try discriminate.
  - destruct (Hnormal u eq_refl).
  - intros [= <-]. exact (Hret r0 eq_refl).
Qed.

(** A call on a tag other than [[a, b]] returns. *)
Lemma check_open_returns (func_str interval_type : string)
    (a_sym b_sym : Expr) :
  interval_type <> tag_closed ->
  exists r,
    outcome (check_uniform_continuity E func_str interval_type a_sym b_sym)
    = Normal r.
Proof.
  intros Htag. apply String.eqb_neq in Htag.
  destruct (parse_expr E FunctionText func_str) as [e | f] eqn:Hparse.
  - rewrite (check_unparsed _ _ _ _ _ Hparse). eexists. reflexivity.
  - rewrite (check_parsed _ _ _ _ _ Hparse). unfold if_else_block.
    rewrite Htag.
    destruct (open_block_returns interval_type f a_sym b_sym)
      as (v & j & -> & _).
    eexists. reflexivity.
Qed.

(** A call is never ended by [st.stop()]. *)
Lemma check_not_stopped (func_str interval_type : string)
    (a_sym b_sym : Expr) :
  outcome (check_uniform_continuity E func_str interval_type a_sym b_sym)
  <> Stopped.
Proof.
  destruct (parse_expr E FunctionText func_str) as [e | f] eqn:Hparse.
  - rewrite (check_unparsed _ _ _ _ _ Hparse). discriminate.
  - rewrite (check_parsed _ _ _ _ _ Hparse).
    destruct (if_else_block_ends interval_type f a_sym b_sym
                (computed_set E f)) as (_ & Hstop & _).
    unfold outcome at 1. cbn [fst].
    destruct (outcome (if_else_block E interval_type f a_sym b_sym
                         (computed_set E f))); try discriminate.
    destruct (Hstop eq_refl).
Qed.

(** *** Closed tag, finite bounds *)


(** *** Open left end *)


(** *** Open right end and the positive verdict *)


(** *** Closed tag, infinite bound *)

(** C4. On the tag [[a, b]] with an infinite bound, for every function
    text that parses, the function returns "cannot classify" and carries
    the parsed expression; its run asks the engine for no membership
    test and no limit. *)
Theorem closed_infinite_cannot_classify (func_str : string)
    (f a_sym b_sym : Expr) :
  parse_expr E FunctionText func_str = inr f ->
  infinite E a_sym = true \/ infinite E b_sym = true ->
  let run := check_uniform_continuity E func_str tag_closed a_sym b_sym in
  outcome run
  = Normal (verdict_cannot_classify, reason_closed_infinite, Some f)
  /\ trace run = [EvParse FunctionText func_str; EvSingularities f]
  /\ never is_contains_event (trace run)
  /\ never is_limit_event (trace run).
Proof.
  intros Hparse Hinf run. subst run.
  rewrite (check_parsed _ _ _ _ _ Hparse).
  unfold if_else_block. rewrite String.eqb_refl.
  rewrite (closed_block_infinite _ _ _ _ Hinf).
  unfold outcome, trace. cbn [fst snd].
  repeat split; intros ev [<- | [<- | []]]; reflexivity.
Qed.

(** *** Parse failure *)

(** C6. When parsing the function text raises [e], the function returns
    the "error" verdict, the justification is the fixed prefix followed
    by the message of [e], the expression is [None], and the run made no
    engine call after the parse: no singularity, membership or limit
    computation. *)
Theorem parse_failure_verdict (func_str interval_type : string)
    (a_sym b_sym : Expr) (e : Exn) :
  parse_expr E FunctionText func_str = inl e ->
  let run := check_uniform_continuity E func_str interval_type a_sym b_sym in
  outcome run
  = Normal (verdict_error, "함수식을 파싱할 수 없습니다: " ++ e, None)
  /\ trace run = [EvParse FunctionText func_str]
  /\ never is_singularities_event (trace run)
  /\ never is_contains_event (trace run)
  /\ never is_limit_event (trace run).
Proof.
  intros Hparse run. subst run. rewrite (check_unparsed _ _ _ _ _ Hparse).
  unfold outcome, trace. cbn [fst snd].
  repeat split; intros ev [<- | []]; reflexivity.
Qed.

(** *** The expression component *)

(** In what a call returns, the expression is [None] exactly on the
    "error" verdict. *)
Lemma expression_none_iff_error (func_str interval_type : string)
    (a_sym b_sym : Expr) (r : Result) :
  outcome (check_uniform_continuity E func_str interval_type a_sym b_sym)
  = Normal r ->
  (expression r = None <-> verdict r = verdict_error).
Proof.
  destruct (parse_expr E FunctionText func_str) as [e | f] eqn:Hparse.
  - rewrite (check_unparsed _ _ _ _ _ Hparse). intros [= <-].
    split; reflexivity.
  - intros Hr.
    destruct (check_parsed_returns func_str interval_type f a_sym b_sym r
                Hparse Hr) as (v & j & -> & Hv).
    unfold expression, verdict. cbn [fst snd]. split; [discriminate |].
    intros ->. cbn [In] in Hv.
    repeat (destruct Hv as [Hv | Hv]; [discriminate Hv |]). destruct Hv.
Qed.

End ClassifierFacts.

(** ** Exceptions of the engine *)

Section ExceptionFacts.

Context {Expr : Type} (E : Engine Expr).

Lemma compute_discontinuities_outcome (f : Expr) :
  outcome (compute_discontinuities E f) = Normal (computed_set E f).
Proof.
  unfold compute_discontinuities, call_singularities, computed_set,
    try_except, outcome.
  cbn [fst snd]. destruct (singularities E f); reflexivity.
Qed.

Lemma without_exceptions_points (finite_limit f : Expr) :
  computed_set (without_exceptions E finite_limit) f = computed_set E f.
Proof.
  unfold computed_set. cbn [singularities without_exceptions].
  destruct (singularities E f); reflexivity.
Qed.

Lemma without_exceptions_limit (finite_limit f point : Expr) (d : Dir) :
  infinite E finite_limit = false ->
  limit_is_infinite (without_exceptions E finite_limit) f point d
  = limit_is_infinite E f point d.
Proof.
  intros Hfinite. unfold limit_is_infinite.
  cbn [limit without_exceptions].
  destruct (limit E f point d); [exact Hfinite | reflexivity].
Qed.

Lemma without_exceptions_block (finite_limit : Expr) (interval_type : string)
    (f a_sym b_sym : Expr) (s : Points Expr) :
  infinite E finite_limit = false ->
  outcome (if_else_block (without_exceptions E finite_limit)
             interval_type f a_sym b_sym s)
  = outcome (if_else_block E interval_type f a_sym b_sym s).
Proof.
  intros Hfinite. unfold if_else_block.
  destruct (String.eqb interval_type tag_closed).
  - destruct (infinite E a_sym) eqn:Ha; [| destruct (infinite E b_sym) eqn:Hb].
    + rewrite !closed_block_infinite by auto. reflexivity.
    + rewrite !closed_block_infinite by auto. reflexivity.
    + rewrite (closed_block_finite E _ _ _ _ Ha Hb).
      rewrite (closed_block_finite (without_exceptions E finite_limit)
                 _ _ _ _ Ha Hb).
      reflexivity.
  - rewrite !open_block_outcome. unfold left_check_fires, right_check_fires.
    rewrite !without_exceptions_limit by exact Hfinite. reflexivity.
Qed.

(** With no point to test, the closed block returns once the interval is
    built. *)
Lemma closed_block_no_point (f a_sym b_sym : Expr) :
  infinite E a_sym = false -> infinite E b_sym = false ->
  interval_built E a_sym b_sym ->
  outcome (closed_block E f a_sym b_sym (py_list []))
  = Returned (verdict_uc, reason_heine_cantor E a_sym b_sym, Some f).
Proof.
  intros Ha Hb Hbuilt. rewrite (closed_block_finite E _ _ _ _ Ha Hb).
  unfold closed_exit. rewrite Hbuilt. reflexivity.
Qed.

(** C5. An exception raised by the engine while it computes the
    singularities or a one-sided limit never leaves the function.  The
    call ends exactly as it ends with an engine that answers an empty set
    of singularities where the first raises, and a finite limit where the
    first raises; so an exception that leaves the call also leaves it when
    these two routines never raise, and is none of theirs.  A failed
    singularity computation leaves no point to test and a failed limit
    leaves [is_uc] and [reason] as they were.  A call on a tag other than
    [[a, b]], the only ones on which a limit is computed, returns; and a
    call in which the singularity computation raised returns, once the
    closed interval is built.  When both routines fail everywhere the
    verdict is "uniformly continuous", except on the closed tag with an
    infinite bound, which is rejected before either result is used. *)
Theorem engine_exceptions_absorbed (finite_limit : Expr)
    (func_str interval_type : string) (a_sym b_sym : Expr) :
  infinite E finite_limit = false ->
  outcome (check_uniform_continuity E func_str interval_type a_sym b_sym)
  = outcome (check_uniform_continuity (without_exceptions E finite_limit)
               func_str interval_type a_sym b_sym)
  /\ (forall e,
        outcome (check_uniform_continuity E func_str interval_type
                   a_sym b_sym) = Raised e ->
        outcome (check_uniform_continuity (without_exceptions E finite_limit)
                   func_str interval_type a_sym b_sym) = Raised e)
  /\ (forall f e, singularities E f = inl e ->
                  outcome (compute_discontinuities E f) = Normal (py_list []))
  /\ (forall f e st, limit E f a_sym dir_plus = inl e ->
                     outcome (left_endpoint E interval_type f a_sym st)
                     = Normal st)
  /\ (forall f e st, limit E f b_sym dir_minus = inl e ->
                     outcome (right_endpoint E interval_type f b_sym st)
                     = Normal st)
  /\ (interval_type <> tag_closed ->
      exists r,
        outcome (check_uniform_continuity E func_str interval_type
                   a_sym b_sym) = Normal r)
  /\ (forall f e,
        parse_expr E FunctionText func_str = inr f ->
        singularities E f = inl e ->
        (interval_type = tag_closed -> interval_built E a_sym b_sym) ->
        exists r,
          outcome (check_uniform_continuity E func_str interval_type
                     a_sym b_sym) = Normal r)
  /\ (forall f,
        parse_expr E FunctionText func_str = inr f ->
        (exists e, singularities E f = inl e) ->
        (forall point d, exists e, limit E f point d = inl e) ->
        (interval_type = tag_closed -> interval_built E a_sym b_sym) ->
        exists j,
          outcome (check_uniform_continuity E func_str interval_type
                     a_sym b_sym)
          = Normal (if String.eqb interval_type tag_closed
                       && (infinite E a_sym || infinite E b_sym)
                    then verdict_cannot_classify else verdict_uc,
                    j, Some f)).
Proof.
  intros Hfinite.
  assert (Hsame :
    outcome (check_uniform_continuity E func_str interval_type a_sym b_sym)
    = outcome (check_uniform_continuity (without_exceptions E finite_limit)
                 func_str interval_type a_sym b_sym)).
  { destruct (parse_expr E FunctionText func_str) as [e | f] eqn:Hparse.
    - rewrite (check_unparsed E _ _ _ _ _ Hparse).
      rewrite (check_unparsed (without_exceptions E finite_limit)
                 _ _ _ _ _ Hparse).
      reflexivity.
    - rewrite (check_parsed E _ _ _ _ _ Hparse).
      rewrite (check_parsed (without_exceptions E finite_limit)
                 _ _ _ _ _ Hparse).
      rewrite without_exceptions_points.
      rewrite (without_exceptions_block _ _ _ _ _ _ Hfinite).
      reflexivity. }
  assert (Hclosed : forall f,
    parse_expr E FunctionText func_str = inr f ->
    computed_set E f = py_list [] ->
    (interval_type = tag_closed -> interval_built E a_sym b_sym) ->
    interval_type = tag_closed ->
    exists j,
      outcome (check_uniform_continuity E func_str interval_type a_sym b_sym)
      = Normal (if infinite E a_sym || infinite E b_sym
                then verdict_cannot_classify else verdict_uc, j, Some f)).
  { intros f Hparse Hpoints Hbuilt Htag.
    rewrite (check_parsed E _ _ _ _ _ Hparse), Hpoints.
    unfold if_else_block. pose proof (Hbuilt Htag) as Hi.
    rewrite (proj2 (String.eqb_eq _ _) Htag).
    destruct (infinite E a_sym) eqn:Ha; [| destruct (infinite E b_sym) eqn:Hb];
      cbn [orb].
    - rewrite closed_block_infinite by auto. eexists. reflexivity.
    - rewrite closed_block_infinite by auto. eexists. reflexivity.
    - rewrite (closed_block_no_point _ _ _ Ha Hb Hi).
      eexists. reflexivity. }
  split; [exact Hsame |].
  split; [intros e He; rewrite <- Hsame; exact He |].
  split; [| split; [| split; [| split; [| split]]]].
  - intros f e Hsing. rewrite compute_discontinuities_outcome.
    unfold computed_set. rewrite Hsing. reflexivity.
  - intros f e st Hlimit.
    unfold left_endpoint, call_limit, try_except, bind, ret, outcome.
    rewrite Hlimit.
    destruct (str_in interval_type [tag_open; tag_left_open]); reflexivity.
  - intros f e st Hlimit.
    unfold right_endpoint, call_limit, try_except, bind, ret, outcome.
    rewrite Hlimit.
    destruct (fst st && str_in interval_type [tag_open; tag_right_open]);
      reflexivity.
  - apply check_open_returns.
  - intros f e Hparse Hsing Hbuilt.
    destruct (String.eqb interval_type tag_closed) eqn:Htag.
    + assert (Hpoints : computed_set E f = py_list []).
      { unfold computed_set. rewrite Hsing. reflexivity. }
      apply String.eqb_eq in Htag.
      destruct (Hclosed f Hparse Hpoints Hbuilt Htag) as [j Hj].
      eexists. exact Hj.
    + apply check_open_returns. apply String.eqb_neq. exact Htag.
  - intros f Hparse [e Hsing] Hlimits Hbuilt.
    assert (Hpoints : computed_set E f = py_list []).
    { unfold computed_set. rewrite Hsing. reflexivity. }
    destruct (String.eqb interval_type tag_closed) eqn:Htag; cbn [andb].
    + apply String.eqb_eq in Htag.
      exact (Hclosed f Hparse Hpoints Hbuilt Htag).
    + rewrite (check_parsed E _ _ _ _ _ Hparse).
      unfold if_else_block. rewrite Htag, open_block_outcome.
      unfold left_check_fires, right_check_fires, limit_is_infinite.
      destruct (Hlimits a_sym dir_plus) as [ea ->].
      destruct (Hlimits b_sym dir_minus) as [eb ->].
      rewrite !andb_false_r. eexists. reflexivity.
Qed.

End ExceptionFacts.

(** ** The script *)

Section ScriptFacts.

Context {Expr : Type} (E : Engine Expr).

Lemma if_else_block_trace (interval_type : string) (f a_sym b_sym : Expr)
    (points : Points Expr) :
  forall ev,
    In ev (trace (if_else_block E interval_type f a_sym b_sym points)) ->
    is_contains_event ev = true \/ is_limit_event ev = true.
Proof.
  intros ev. unfold if_else_block.
  destruct (String.eqb interval_type tag_closed).
  - intros Hin. left. exact (closed_block_trace E _ _ _ _ ev Hin).
  - rewrite open_block_trace. intros Hin. right.
    apply in_app_or in Hin.
    destruct Hin as [Hin | Hin];
      match type of Hin with
      | In _ (if ?c then _ else _) => destruct c
      end;
      cbn [In] in Hin;
      repeat (destruct Hin as [<- | Hin]; [reflexivity |]); destruct Hin.
Qed.

Lemma check_trace (func_str interval_type : string) (a_sym b_sym : Expr) :
  forall ev,
    In ev (trace (check_uniform_continuity E func_str interval_type
                    a_sym b_sym)) ->
    is_check_event ev = false /\ is_plot_event ev = false.
Proof.
  intros ev.
  destruct (parse_expr E FunctionText func_str) as [e | f] eqn:Hparse.
  - rewrite (check_unparsed E _ _ _ _ _ Hparse). cbn.
    intros [<- | []]. auto.
  - rewrite (check_parsed E _ _ _ _ _ Hparse). unfold trace at 1. cbn [snd].
    intros [<- | [<- | Hin]]; auto.
    apply if_else_block_trace in Hin.
    destruct ev; cbn in Hin |- *; auto; destruct Hin; discriminate.
Qed.

Lemma show_result_run (r : Result) (a_sym b_sym : Expr) :
  show_result E r a_sym b_sym =
  (match func_sympy_truth E (expression r) with
   | inl e => Raised e
   | inr _ => Normal tt
   end,
   [EvUi (banner_widget (verdict r)); EvUi (st_markdown "### 판별 근거");
    EvUi (st_info (reason r))]
   ++ match expression r with
      | Some f =>
          match expr_bool E f with
          | inr true =>
              [EvUi (st_markdown "### 함수 그래프"); EvPlot f a_sym b_sym]
          | _ => []
          end
      | None => []
      end)%list.
Proof.
  unfold show_result, test_func_sympy, bind, emit, ret. cbn [fst snd app].
  destruct (expression r) as [f |]; [| reflexivity].
  cbn [func_sympy_truth]. destruct (expr_bool E f) as [e | []]; reflexivity.
Qed.

Lemma show_result_trace (r : Result) (a_sym b_sym : Expr) :
  forall ev, In ev (trace (show_result E r a_sym b_sym)) ->
             is_check_event ev = false.
Proof.
  intros ev. rewrite show_result_run. unfold trace. cbn [snd].
  destruct (expression r) as [f |];
    [destruct (expr_bool E f) as [e | []] |];
    cbn [app In]; intros H;
    repeat (destruct H as [<- | H]; [reflexivity |]); destruct H.
Qed.

(** The chart block is entered exactly when the returned expression is an
    object whose truth value is [True]. *)
Lemma show_result_plots (r : Result) (a_sym b_sym : Expr) :
  (exists ev, In ev (trace (show_result E r a_sym b_sym))
              /\ is_plot_event ev = true)
  <-> func_sympy_truth E (expression r) = inr true.
Proof.
  rewrite show_result_run. unfold func_sympy_truth, trace. cbn [snd].
  destruct (expression r) as [f |];
    [destruct (expr_bool E f) as [e | []] |];
    cbn [app In]; split; try discriminate; try reflexivity.
  - intros (ev & H & Hev).
    repeat (destruct H as [<- | H]; [discriminate Hev |]). destruct H.
  - intros _. exists (EvPlot f a_sym b_sym). split; [| reflexivity].
    do 4 right. left. reflexivity.
  - intros (ev & H & Hev).
    repeat (destruct H as [<- | H]; [discriminate Hev |]). destruct H.
  - intros (ev & H & Hev).
    repeat (destruct H as [<- | H]; [discriminate Hev |]). destruct H.
Qed.

(** The [try] statement, once both texts are parsed. *)
Lemma read_bounds_parsed (a_str b_str : string) (a_sym b_sym : Expr) :
  parse_expr E BoundText (normalize_bound a_str) = inr a_sym ->
  parse_expr E BoundText (normalize_bound b_str) = inr b_sym ->
  read_bounds E a_str b_str =
  (let t0 := [EvParse BoundText (normalize_bound a_str);
              EvParse BoundText (normalize_bound b_str)] in
   let failed e t :=
     (@Stopped NoReturn (Expr * Expr),
      t ++ [EvUi (st_error (msg_bound_failure a_str b_str e)); EvUi st_stop]) in
   if negb (real_or_infinite E a_sym) || negb (real_or_infinite E b_sym)
   then failed msg_invalid_bound t0
   else if negb (infinite E a_sym) && negb (infinite E b_sym) then
     match evalf E a_sym with
     | inl e => failed e (t0 ++ [EvEvalf a_sym])
     | inr qa =>
         match evalf E b_sym with
         | inl e => failed e (t0 ++ [EvEvalf a_sym; EvEvalf b_sym])
         | inr qb =>
             if Qle_bool qb qa
             then (Stopped,
                   t0 ++ [EvEvalf a_sym; EvEvalf b_sym;
                          EvUi (st_error msg_ordering); EvUi st_stop])
             else (Normal (a_sym, b_sym),
                   t0 ++ [EvEvalf a_sym; EvEvalf b_sym])
         end
     end
   else (Normal (a_sym, b_sym), t0))%list.
Proof.
  intros Hpa Hpb.
  unfold read_bounds, ordering_check, call_parse, call_evalf, raise, stop,
    emit, bind, try_except, ret, infinite.
  cbn [fst snd]. rewrite Hpa. cbn [fst snd of_result]. rewrite Hpb.
  cbn [fst snd of_result].
  destruct (negb (real_or_infinite E a_sym) || negb (real_or_infinite E b_sym));
    cbn [fst snd app]; [reflexivity |].
  destruct (negb (truthy (is_infinite E a_sym))
            && negb (truthy (is_infinite E b_sym)));
    cbn [fst snd app]; [| reflexivity].
  destruct (evalf E a_sym) as [e | qa]; cbn [fst snd app of_result];
    [reflexivity |].
  destruct (evalf E b_sym) as [e | qb]; cbn [fst snd app of_result];
    [reflexivity |].
  destruct (Qle_bool qb qa); reflexivity.
Qed.

Lemma read_bounds_unparsed (a_str b_str : string) :
  (exists e, parse_expr E BoundText (normalize_bound a_str) = inl e)
  \/ (exists a_sym e,
        parse_expr E BoundText (normalize_bound a_str) = inr a_sym
        /\ parse_expr E BoundText (normalize_bound b_str) = inl e) ->
  outcome (read_bounds E a_str b_str) = Stopped
  /\ never is_check_event (trace (read_bounds E a_str b_str)).
Proof.
  unfold read_bounds, ordering_check, call_parse, call_evalf, raise, stop,
    emit, bind, try_except, ret, outcome, trace.
  intros [[e Hpa] | (a_sym & e & Hpa & Hpb)]; cbn [fst snd]; rewrite Hpa;
    cbn [fst snd of_result]; rewrite ?Hpb; cbn [fst snd of_result app].
  - split; [reflexivity |].
    intros ev H. cbn [In] in H.
    repeat (destruct H as [<- | H]; [reflexivity |]). destruct H.
  - split; [reflexivity |].
    intros ev H. cbn [In] in H.
    repeat (destruct H as [<- | H]; [reflexivity |]). destruct H.
Qed.

(** When the [try] statement completes, both texts were parsed, and two
    bounds that are not infinite were compared and found in order. *)
Lemma read_bounds_completes (a_str b_str : string) (a_sym b_sym : Expr) :
  outcome (read_bounds E a_str b_str) = Normal (a_sym, b_sym) ->
  parse_expr E BoundText (normalize_bound a_str) = inr a_sym
  /\ parse_expr E BoundText (normalize_bound b_str) = inr b_sym
  /\ real_or_infinite E a_sym = true
  /\ real_or_infinite E b_sym = true
  /\ (infinite E a_sym = false -> infinite E b_sym = false ->
      exists qa qb, evalf E a_sym = inr qa /\ evalf E b_sym = inr qb
                    /\ (qa < qb)%Q).
Proof.
  destruct (parse_expr E BoundText (normalize_bound a_str)) as [e | a] eqn:Hpa.
  { intros H. rewrite (proj1 (read_bounds_unparsed a_str b_str
                                (or_introl (ex_intro _ e Hpa)))) in H.
    discriminate H. }
  destruct (parse_expr E BoundText (normalize_bound b_str)) as [e | b] eqn:Hpb.
  { intros H.
    rewrite (proj1 (read_bounds_unparsed a_str b_str
                      (or_intror (ex_intro _ a (ex_intro _ e (conj Hpa Hpb))))))
      in H.
    discriminate H. }
  rewrite (read_bounds_parsed _ _ _ _ Hpa Hpb). cbv zeta. unfold outcome.
  destruct (real_or_infinite E a) eqn:Hra; cbn [negb orb fst];
    [| discriminate].
  destruct (real_or_infinite E b) eqn:Hrb; cbn [negb orb fst];
    [| discriminate].
  destruct (infinite E a) eqn:Hia; cbn [negb andb fst].
  { intros [= <- <-]. repeat split; auto. congruence. }
  destruct (infinite E b) eqn:Hib; cbn [negb andb fst].
  { intros [= <- <-]. repeat split; auto. congruence. }
  destruct (evalf E a) as [e | qa] eqn:Hqa; cbn [fst]; [discriminate |].
  destruct (evalf E b) as [e | qb] eqn:Hqb; cbn [fst]; [discriminate |].
  destruct (Qle_bool qb qa) eqn:Hle; cbn [fst]; [discriminate |].
  intros [= <- <-]. repeat split; auto. intros _ _.
  exists qa, qb. repeat split; auto.
  apply Qnot_le_lt. intros Hle'. apply Qle_bool_iff in Hle'.
  rewrite Hle' in Hle. discriminate.
Qed.

Lemma read_bounds_trace (a_str b_str : string) :
  never is_check_event (trace (read_bounds E a_str b_str)).
Proof.
  destruct (parse_expr E BoundText (normalize_bound a_str)) as [e | a] eqn:Hpa.
  { apply read_bounds_unparsed. left. exists e. exact Hpa. }
  destruct (parse_expr E BoundText (normalize_bound b_str)) as [e | b] eqn:Hpb.
  { apply read_bounds_unparsed. right. exists a, e. auto. }
  rewrite (read_bounds_parsed _ _ _ _ Hpa Hpb). cbv zeta. unfold trace.
  destruct (negb (real_or_infinite E a) || negb (real_or_infinite E b));
    [| destruct (negb (infinite E a) && negb (infinite E b));
       [destruct (evalf E a) as [e | qa];
        [| destruct (evalf E b) as [e | qb]; [| destruct (Qle_bool qb qa)]] |]];
    cbn [snd app]; intros ev H; cbn [In] in H;
    repeat (destruct H as [<- | H]; [reflexivity |]); destruct H.
Qed.

Lemma submit_trace (func_input a_str b_str interval_type : string) :
  trace (submit E func_input a_str b_str interval_type) =
  (trace (read_bounds E a_str b_str)
   ++ match outcome (read_bounds E a_str b_str) with
      | Normal bounds =>
          EvCheck func_input interval_type (fst bounds) (snd bounds)
          :: trace (check_uniform_continuity E func_input interval_type
                      (fst bounds) (snd bounds))
          ++ match outcome (check_uniform_continuity E func_input
                              interval_type (fst bounds) (snd bounds)) with
             | Normal r => trace (show_result E r (fst bounds) (snd bounds))
             | _ => []
             end
      | _ => []
      end)%list.
Proof.
  unfold submit, bind at 1, outcome, trace.
  destruct (read_bounds E a_str b_str) as [[bounds | r | e | |] t];
    cbn [fst snd]; rewrite ?app_nil_r; try reflexivity.
  unfold bind, emit. cbn [fst snd app].
  destruct (check_uniform_continuity E func_input interval_type
              (fst bounds) (snd bounds)) as [[r | r | e | |] t'];
    cbn [fst snd app]; rewrite ?app_nil_r; reflexivity.
Qed.

(** C7. When both bound texts parse to real values that are not
    infinite and the numeric value of the first is at least that of the
    second, the script shows the ordering error and stops, and the
    classifier is not invoked.  Hence, in any run, when the classifier is
    invoked with two bounds that are not infinite, both were evaluated
    and the first is strictly below the second. *)
Theorem ordering_guard (func_input a_str b_str interval_type : string) :
  (forall a_sym b_sym qa qb,
      parse_expr E BoundText (normalize_bound a_str) = inr a_sym ->
      parse_expr E BoundText (normalize_bound b_str) = inr b_sym ->
      is_real E a_sym = Some true ->
      is_real E b_sym = Some true ->
      infinite E a_sym = false ->
      infinite E b_sym = false ->
      evalf E a_sym = inr qa ->
      evalf E b_sym = inr qb ->
      (qb <= qa)%Q ->
      submit E func_input a_str b_str interval_type
      = (Stopped,
         [EvParse BoundText (normalize_bound a_str);
          EvParse BoundText (normalize_bound b_str);
          EvEvalf a_sym; EvEvalf b_sym;
          EvUi (st_error msg_ordering); EvUi st_stop])
      /\ never is_check_event
           (trace (submit E func_input a_str b_str interval_type)))
  /\ (forall func_str tag a_sym b_sym,
        In (EvCheck func_str tag a_sym b_sym)
           (trace (submit E func_input a_str b_str interval_type)) ->
        infinite E a_sym = false ->
        infinite E b_sym = false ->
        exists qa qb, evalf E a_sym = inr qa /\ evalf E b_sym = inr qb
                      /\ (qa < qb)%Q).
Proof.
  split.
  - intros a_sym b_sym qa qb Hpa Hpb Hra Hrb Hia Hib Hqa Hqb Hle.
    assert (Hrun :
      submit E func_input a_str b_str interval_type
      = (Stopped,
         [EvParse BoundText (normalize_bound a_str);
          EvParse BoundText (normalize_bound b_str);
          EvEvalf a_sym; EvEvalf b_sym;
          EvUi (st_error msg_ordering); EvUi st_stop])).
    { unfold submit. rewrite (read_bounds_parsed _ _ _ _ Hpa Hpb). cbv zeta.
      unfold real_or_infinite. apply Qle_bool_iff in Hle.
      rewrite Hra, Hrb, Hia, Hib, Hqa, Hqb, Hle. reflexivity. }
    split; [exact Hrun |]. rewrite Hrun. unfold trace. cbn [snd].
    intros ev H. cbn [In] in H.
    repeat (destruct H as [<- | H]; [reflexivity |]). destruct H.
  - intros func_str tag a_sym b_sym Hin Hia Hib.
    rewrite submit_trace in Hin. apply in_app_or in Hin.
    destruct Hin as [Hin | Hin].
    { apply read_bounds_trace in Hin. discriminate Hin. }
    destruct (outcome (read_bounds E a_str b_str)) as [[a b] | r | e | |]
      eqn:Hread; try destruct Hin.
    + cbn [fst snd] in *. injection H as <- <- <- <-.
      destruct (read_bounds_completes _ _ _ _ Hread) as (_ & _ & _ & _ & Hord).
      exact (Hord Hia Hib).
    + cbn [fst snd] in H. apply in_app_or in H. destruct H as [H | H].
      * apply check_trace in H. destruct H as [H _]. discriminate H.
      * destruct (outcome (check_uniform_continuity E func_input
                             interval_type a b)) as [r | r | e | |];
          [| destruct H | destruct H | destruct H | destruct H].
        apply show_result_trace in H. discriminate H.
Qed.

End ScriptFacts.

(** ** Plot sampling *)

Section PlotFacts.

Lemma isneginf_isinf (y : spec_float) :
  Np.isinf y || Np.isneginf y = Np.isinf y.
Proof. destruct y as [s | s | | s m e]; reflexivity. Qed.

Lemma masked_series (y_vals : list spec_float) :
  Np.setitem_mask y_vals
    (Np.mask_or (map Np.isinf y_vals) (map Np.isneginf y_vals)) Np.nan
  = map (fun y => if Np.isinf y then Np.nan else y) y_vals.
Proof.
  unfold Np.setitem_mask, Np.mask_or.
  induction y_vals as [| y rest IH]; [reflexivity |].
  cbn [map combine fst snd]. rewrite isneginf_isinf. f_equal. exact IH.
Qed.

(** C8. When the lambdified function returns an array, the series given
    to the renderer has one value per sample; at every index it is NaN
    where the evaluated value is plus or minus infinity and the
    evaluated value elsewhere; no value of the series is infinite. *)
Theorem plotted_series_has_no_infinity
    (f_lambda : list spec_float -> Np.value)
    (x_vals y_vals : list spec_float) :
  f_lambda x_vals = Np.array y_vals ->
  exists series,
    Np.plotted_series f_lambda x_vals = inr series
    /\ length series = length y_vals
    /\ (forall i, nth i series Np.nan
                  = if Np.isinf (nth i y_vals Np.nan)
                    then Np.nan else nth i y_vals Np.nan)
    /\ (forall y, In y series ->
                  Np.isinf y = false /\ Np.isneginf y = false).
Proof.
  intros Hy. unfold Np.plotted_series. rewrite Hy, masked_series.
  eexists. split; [reflexivity |]. split; [| split].
  - apply length_map.
  - intros i.
    exact (map_nth (fun y => if Np.isinf y then Np.nan else y) y_vals Np.nan i).
  - intros y Hin. apply in_map_iff in Hin. destruct Hin as (y0 & <- & _).
    destruct y0 as [s | s | | s m e]; cbn; auto.
Qed.

End PlotFacts.

(** ** Worked examples *)




(** [sin(x)] on [[-oo, 1]]. *)
Lemma closed_infinite_cannot_classify_witness :
  parse_expr Demo.engine FunctionText "sin(x)" = inr Demo.Sin_x
  /\ (infinite Demo.engine Demo.neg_oo = true
      \/ infinite Demo.engine (Demo.Int 1) = true)
  /\ outcome (check_uniform_continuity Demo.engine "sin(x)" tag_closed
                Demo.neg_oo (Demo.Int 1))
     = Normal (verdict_cannot_classify, reason_closed_infinite,
               Some Demo.Sin_x)
  /\ trace (check_uniform_continuity Demo.engine "sin(x)" tag_closed
              Demo.neg_oo (Demo.Int 1))
     = [EvParse FunctionText "sin(x)"; EvSingularities Demo.Sin_x].
Proof.
  split; [reflexivity |]. split; [left; reflexivity |].
  pose proof (closed_infinite_cannot_classify Demo.engine "sin(x)" Demo.Sin_x
                Demo.neg_oo (Demo.Int 1) eq_refl (or_introl eq_refl)) as H.
  cbv zeta in H. destruct H as (Hvalue & Htrace & _).
  split; [exact Hvalue | exact Htrace].
Defined.

(** [1/x] on [(0, 1)] with an engine whose routines raise. *)
Lemma engine_exceptions_absorbed_witness :
  infinite Demo.failing_engine (Demo.Int 0) = false
  /\ (exists j,
        outcome (check_uniform_continuity Demo.failing_engine "1/x" tag_open
                   (Demo.Int 0) (Demo.Int 1))
        = Normal (verdict_uc, j, Some Demo.Recip_x))
  /\ outcome (check_uniform_continuity Demo.failing_engine "1/x" tag_open
                (Demo.Int 0) (Demo.Int 1))
     = outcome (check_uniform_continuity
                  (without_exceptions Demo.failing_engine (Demo.Int 0))
                  "1/x" tag_open (Demo.Int 0) (Demo.Int 1)).
Proof.
  split; [reflexivity |].
  pose proof (engine_exceptions_absorbed Demo.failing_engine (Demo.Int 0)
                "1/x" tag_open (Demo.Int 0) (Demo.Int 1) eq_refl) as H.
  destruct H as (Hsame & _ & _ & _ & _ & _ & _ & Hbias).
  split; [| exact Hsame].
  apply (Hbias Demo.Recip_x eq_refl).
  - exists "NotImplementedError". reflexivity.
  - intros point d. exists "NotImplementedError". reflexivity.
  - intros H. discriminate H.
Defined.

(** A text that does not parse. *)
Lemma parse_failure_verdict_witness :
  parse_expr Demo.engine FunctionText "1/" = inl "invalid syntax"
  /\ outcome (check_uniform_continuity Demo.engine "1/" tag_open
                (Demo.Int 0) (Demo.Int 1))
     = Normal (verdict_error, "함수식을 파싱할 수 없습니다: invalid syntax", None)
  /\ trace (check_uniform_continuity Demo.engine "1/" tag_open
              (Demo.Int 0) (Demo.Int 1))
     = [EvParse FunctionText "1/"].
Proof.
  split; [reflexivity |].
  pose proof (parse_failure_verdict Demo.engine "1/" tag_open (Demo.Int 0)
                (Demo.Int 1) "invalid syntax" eq_refl) as H.
  cbv zeta in H. destruct H as (Hvalue & Htrace & _).
  split; [exact Hvalue | exact Htrace].
Defined.

(** Bounds "5" and "1": rejected; bounds "0" and "1": the classifier is
    invoked, and 0 < 1. *)
Lemma ordering_guard_witness :
  submit Demo.engine "1/x" "5" "1" tag_closed
  = (Stopped,
     [EvParse BoundText "5"; EvParse BoundText "1";
      EvEvalf (Demo.Int 5); EvEvalf (Demo.Int 1);
      EvUi (st_error msg_ordering); EvUi st_stop])
  /\ In (EvCheck "1/x" tag_open (Demo.Int 0) (Demo.Int 1))
        (trace (submit Demo.engine "1/x" "0" "1" tag_open))
  /\ exists qa qb, evalf Demo.engine (Demo.Int 0) = inr qa
                   /\ evalf Demo.engine (Demo.Int 1) = inr qb
                   /\ (qa < qb)%Q.
Proof.
  split; [| split].
  - apply (proj1 (ordering_guard Demo.engine "1/x" "5" "1" tag_closed)
             (Demo.Int 5) (Demo.Int 1) (inject_Z 5) (inject_Z 1));
      try reflexivity.
    unfold Qle. cbn. lia.
  - cbn. do 4 right. left. reflexivity.
  - apply (proj2 (ordering_guard Demo.engine "1/x" "0" "1" tag_open)
             "1/x" tag_open (Demo.Int 0) (Demo.Int 1)); try reflexivity.
    cbn. do 4 right. left. reflexivity.
Defined.

(** A reciprocal sampled at +0, 1 and -0: the two infinities become NaN. *)
Lemma plotted_series_has_no_infinity_witness :
  (fun xs => Np.array (map Demo.recip_like xs))
    [S754_zero false; S754_finite false 1 0; S754_zero true]
  = Np.array [S754_infinity false; S754_finite false 1 0; S754_infinity true]
  /\ exists series,
       Np.plotted_series (fun xs => Np.array (map Demo.recip_like xs))
         [S754_zero false; S754_finite false 1 0; S754_zero true]
       = inr series
       /\ length series = 3%nat
       /\ nth 0 series Np.nan = Np.nan
       /\ nth 1 series Np.nan = S754_finite false 1 0
       /\ nth 2 series Np.nan = Np.nan
       /\ (forall y, In y series ->
                     Np.isinf y = false /\ Np.isneginf y = false).
Proof.
  split; [reflexivity |].
  destruct (plotted_series_has_no_infinity
              (fun xs => Np.array (map Demo.recip_like xs))
              [S754_zero false; S754_finite false 1 0; S754_zero true]
              [S754_infinity false; S754_finite false 1 0; S754_infinity true]
              eq_refl) as (series & Hseries & Hlen & Hnth & Hfinite).
  exists series. split; [exact Hseries |]. split; [exact Hlen |].
  split; [exact (Hnth 0%nat) |]. split; [exact (Hnth 1%nat) |].
  split; [exact (Hnth 2%nat) | exact Hfinite].
Defined.

(** ** The constant 0 and the chart *)

(** C10. On the function text "0", the tag [[a, b]] and the bounds "-inf"
    and "inf", the classifier is invoked and returns "cannot classify"
    together with the parsed expression, which is not [None]; the
    expression is the number 0, whose truth value is [False], so the test
    of line 147 fails and the script never reaches the chart. *)
Theorem zero_function_is_not_plotted :
  In (EvCheck "0" tag_closed Demo.neg_oo Demo.oo)
     (trace (submit Demo.engine "0" "-inf" "inf" tag_closed))
  /\ outcome (check_uniform_continuity Demo.engine "0" tag_closed
                Demo.neg_oo Demo.oo)
     = Normal (verdict_cannot_classify, reason_closed_infinite,
               Some (Demo.Int 0))
  /\ func_sympy_truth Demo.engine (Some (Demo.Int 0)) = inr false
  /\ outcome (submit Demo.engine "0" "-inf" "inf" tag_closed) = Normal tt
  /\ never is_plot_event
       (trace (submit Demo.engine "0" "-inf" "inf" tag_closed)).
Proof.
  split; [| split; [| split; [| split]]].
  - cbn. do 2 right. left. reflexivity.
  - reflexivity.
  - reflexivity.
  - reflexivity.
  - intros ev H. cbn in H.
    repeat (destruct H as [<- | H]; [reflexivity |]). destruct H.
Qed.

(** ** A membership test that does not evaluate *)

(** C9. On the function text "1/(x-y)", the tag [[a, b]] and the bounds 0
    and 1, the call returns none of the verdicts: the singularity [y] is
    computed, the membership test of line 52, which no [try] statement
    encloses, raises on it, and the exception leaves the function.  The
    script, which calls the function outside of a [try] statement, is left
    by the same exception and shows no verdict. *)
Theorem undecided_membership_raises :
  check_uniform_continuity Demo.engine "1/(x-y)" tag_closed
    (Demo.Int 0) (Demo.Int 1)
  = (Raised "did not evaluate to a bool",
     [EvParse FunctionText "1/(x-y)"; EvSingularities Demo.Recip_x_minus_y;
      EvContains Demo.Sym_y (sympy_Interval (Demo.Int 0) (Demo.Int 1))])
  /\ (forall r,
        outcome (check_uniform_continuity Demo.engine "1/(x-y)" tag_closed
                   (Demo.Int 0) (Demo.Int 1)) <> Normal r)
  /\ submit Demo.engine "1/(x-y)" "0" "1" tag_closed
     = (Raised "did not evaluate to a bool",
        [EvParse BoundText "0"; EvParse BoundText "1";
         EvEvalf (Demo.Int 0); EvEvalf (Demo.Int 1);
         EvCheck "1/(x-y)" tag_closed (Demo.Int 0) (Demo.Int 1);
         EvParse FunctionText "1/(x-y)";
         EvSingularities Demo.Recip_x_minus_y;
         EvContains Demo.Sym_y (sympy_Interval (Demo.Int 0) (Demo.Int 1))]).
Proof.
  split; [reflexivity |]. split; [| reflexivity].
  intros r H. discriminate H.
Qed.

(** The relation [x>0] on [(-oo, oo)]: the classifier returns, and the
    test of line 147 on the expression it returned raises. *)
Example relation_has_no_truth_value :
  outcome (check_uniform_continuity Demo.engine "x>0" tag_open
             Demo.neg_oo Demo.oo)
  = Normal (verdict_uc, reason_finite_limits, Some Demo.Gt_x_zero)
  /\ submit Demo.engine "x>0" "-inf" "inf" tag_open
     = (Raised "cannot determine truth value of Relational",
        [EvParse BoundText "-oo"; EvParse BoundText "oo";
         EvCheck "x>0" tag_open Demo.neg_oo Demo.oo;
         EvParse FunctionText "x>0"; EvSingularities Demo.Gt_x_zero;
         EvLimit Demo.Gt_x_zero Demo.neg_oo dir_plus;
         EvLimit Demo.Gt_x_zero Demo.oo dir_minus;
         EvUi (st_success "**판별 결과: 평등연속**");
         EvUi (st_markdown "### 판별 근거");
         EvUi (st_info reason_finite_limits)]).
Proof. split; reflexivity. Qed.

(** [tan(x)] on [[0, 2]]: the first singularity listed, [pi/2], is inside.
    On [[0, 1]] none is, and the loop over the singularities does not
    end. *)
Example endless_singularities :
  check_uniform_continuity Demo.engine "tan(x)" tag_closed
    (Demo.Int 0) (Demo.Int 2)
  = (Normal (verdict_not_uc,
             reason_discontinuous Demo.engine (Demo.Int 0) (Demo.Int 2)
               Demo.Pi_half,
             Some Demo.Tan_x),
     [EvParse FunctionText "tan(x)"; EvSingularities Demo.Tan_x;
      EvContains Demo.Pi_half (sympy_Interval (Demo.Int 0) (Demo.Int 2))])
  /\ check_uniform_continuity Demo.engine "tan(x)" tag_closed
       (Demo.Int 0) (Demo.Int 1)
     = (Diverged,
        [EvParse FunctionText "tan(x)"; EvSingularities Demo.Tan_x;
         EvContains Demo.Pi_half (sympy_Interval (Demo.Int 0) (Demo.Int 1));
         EvContains Demo.Three_pi_half
           (sympy_Interval (Demo.Int 0) (Demo.Int 1))]).
Proof. split; reflexivity. Qed.

(** The same submission with [sin(x)] reaches the chart. *)
Example sin_is_plotted_on_closed_infinite :
  In (EvPlot Demo.Sin_x Demo.neg_oo Demo.oo)
     (trace (submit Demo.engine "sin(x)" "-inf" "inf" tag_closed)).
Proof. cbn. do 9 right. left. reflexivity. Qed.

(** ** The examples of the documentation *)

Example recip_on_open_unit_interval :
  check_uniform_continuity Demo.engine "1/x" tag_open (Demo.Int 0) (Demo.Int 1)
  = (Normal (verdict_not_uc, reason_left_endpoint Demo.engine (Demo.Int 0),
             Some Demo.Recip_x),
     [EvParse FunctionText "1/x"; EvSingularities Demo.Recip_x;
      EvLimit Demo.Recip_x (Demo.Int 0) dir_plus]).
Proof. reflexivity. Qed.

Example sin_on_the_real_line :
  check_uniform_continuity Demo.engine "sin(x)" tag_open Demo.neg_oo Demo.oo
  = (Normal (verdict_uc, reason_finite_limits, Some Demo.Sin_x),
     [EvParse FunctionText "sin(x)"; EvSingularities Demo.Sin_x;
      EvLimit Demo.Sin_x Demo.neg_oo dir_plus;
      EvLimit Demo.Sin_x Demo.oo dir_minus]).
Proof. reflexivity. Qed.

Example normalize_bound_examples :
  normalize_bound "inf" = "oo"
  /\ normalize_bound "-Inf" = "-oo"
  /\ normalize_bound "e" = "E"
  /\ normalize_bound "2*pi" = "2*pi".
Proof. repeat split. Qed.

(** ** Texts *)

Section TextFacts.

Lemma prefix_cons (a c : ascii) (t s : string) :
  String.prefix (String a t) (String c s) = Ascii.eqb a c && String.prefix t s.
Proof.
  cbn [String.prefix]. destruct (ascii_dec a c) as [-> | Hne].
  - rewrite Ascii.eqb_refl. reflexivity.
  - apply Ascii.eqb_neq in Hne. rewrite Hne. reflexivity.
Qed.

Lemma prefix_nil (s : string) : String.prefix EmptyString s = true.
Proof. destruct s; reflexivity. Qed.

Lemma replace_from_cons (old new : string) (c : ascii) (s' : string) :
  replace_from old new 0 (String c s') =
  if String.prefix old (String c s')
  then new ++ replace_from old new (String.length old - 1) s'
  else String c (replace_from old new 0 s').
Proof. reflexivity. Qed.

Lemma replace_e_E (s : string) : replace "e" "E" s = map_chars e_to_E s.
Proof.
  unfold replace. induction s as [| c s' IH]; [reflexivity |].
  rewrite replace_from_cons, prefix_cons, prefix_nil, andb_true_r.
  cbn [map_chars String.length Nat.sub]. unfold e_to_E.
  rewrite (Ascii.eqb_sym c). rewrite IH.
  destruct (Ascii.eqb "e" c); reflexivity.
Qed.


Lemma all_chars_app (p : ascii -> bool) (s t : string) :
  all_chars p (s ++ t) = all_chars p s && all_chars p t.
Proof.
  induction s as [| c s' IH]; [reflexivity |].
  cbn [append all_chars]. rewrite IH, andb_assoc. reflexivity.
Qed.

Lemma all_chars_impl (p q : ascii -> bool) (s : string) :
  (forall c, p c = true -> q c = true) ->
  all_chars p s = true -> all_chars q s = true.
Proof.
  intros Hpq. induction s as [| c s' IH]; [reflexivity |].
  cbn [all_chars]. rewrite !andb_true_iff. intros [Hc Hs]. auto.
Qed.

Lemma all_chars_map (p : ascii -> bool) (g : ascii -> ascii) (s : string) :
  all_chars p (map_chars g s) = all_chars (fun c => p (g c)) s.
Proof.
  induction s as [| c s' IH]; [reflexivity |].
  cbn [map_chars all_chars]. rewrite IH. reflexivity.
Qed.

(** [replace] brings in no character that is neither in the text nor in
    the replacement. *)
Lemma all_chars_replace_from (p : ascii -> bool) (old new : string) :
  all_chars p new = true ->
  forall (s : string) (k : nat),
    all_chars p s = true -> all_chars p (replace_from old new k s) = true.
Proof.
  intros Hnew. induction s as [| c s' IH]; intros k; [reflexivity |].
  cbn [all_chars]. rewrite andb_true_iff. intros [Hc Hs].
  destruct k as [| k]; [| exact (IH k Hs)].
  rewrite replace_from_cons. destruct (String.prefix old (String c s')).
  - rewrite all_chars_app, Hnew. exact (IH _ Hs).
  - cbn [all_chars]. rewrite Hc. exact (IH 0%nat Hs).
Qed.

Lemma lower_ascii_not_upper (c : ascii) : is_upper (lower_ascii c) = false.
Proof. destruct c as [[] [] [] [] [] [] [] []]; reflexivity. Qed.

Lemma lower_ascii_fixed (c : ascii) : is_upper c = false -> lower_ascii c = c.
Proof. destruct c as [[] [] [] [] [] [] [] []]; intros H; try reflexivity; discriminate H. Qed.

Lemma lower_not_upper (s : string) :
  all_chars (fun c => negb (is_upper c)) (lower s) = true.
Proof.
  induction s as [| c s' IH]; [reflexivity |].
  cbn [lower all_chars]. rewrite lower_ascii_not_upper, IH. reflexivity.
Qed.

Lemma lower_fixed (s : string) :
  all_chars (fun c => negb (is_upper c)) s = true -> lower s = s.
Proof.
  induction s as [| c s' IH]; [reflexivity |].
  cbn [lower all_chars]. rewrite andb_true_iff, negb_true_iff.
  intros [Hc Hs]. rewrite (lower_ascii_fixed c Hc), (IH Hs). reflexivity.
Qed.

(** A text in which [old] does not occur is left as it is. *)
Lemma replace_absent (old new s : string) :
  occurs old s = false -> replace old new s = s.
Proof.
  unfold replace. induction s as [| c s' IH]; [reflexivity |].
  cbn [occurs]. rewrite orb_false_iff. intros [Hprefix Hrest].
  rewrite replace_from_cons, Hprefix, (IH Hrest). reflexivity.
Qed.

(** The first character of a replaced text, when it is not the first
    character of the replacement, was the first character of the text and
    stays in place. *)
Lemma replace_inf_head (x : ascii) (s t : string) :
  replace_from "inf" "oo" 0 s = String x t ->
  x <> "o"%char ->
  exists s', s = String x s' /\ t = replace_from "inf" "oo" 0 s'.
Proof.
  destruct s as [| c s']; [discriminate |].
  rewrite replace_from_cons.
  destruct (String.prefix "inf" (String c s')).
  - cbn [append]. intros [= <- _] Hx. destruct (Hx eq_refl).
  - intros [= <- <-] _. exists s'. auto.
Qed.

Lemma replace_inf_prefix (c : ascii) (s : string) :
  String.prefix "inf" (String c (replace_from "inf" "oo" 0 s)) = true ->
  String.prefix "inf" (String c s) = true.
Proof.
  rewrite !prefix_cons, !andb_true_iff. intros [Hc Hrest]. split; [exact Hc |].
  destruct (replace_from "inf" "oo" 0 s) as [| x t] eqn:Hr; [discriminate |].
  rewrite prefix_cons, andb_true_iff in Hrest. destruct Hrest as [Hx Hrest].
  apply Ascii.eqb_eq in Hx. subst x.
  destruct (replace_inf_head _ _ _ Hr) as (s1 & -> & ->); [discriminate |].
  rewrite prefix_cons, Ascii.eqb_refl. cbn [andb].
  destruct (replace_from "inf" "oo" 0 s1) as [| y u] eqn:Hr1; [discriminate |].
  rewrite prefix_cons, andb_true_iff in Hrest. destruct Hrest as [Hy _].
  apply Ascii.eqb_eq in Hy. subst y.
  destruct (replace_inf_head _ _ _ Hr1) as (s2 & -> & _); [discriminate |].
  rewrite prefix_cons, Ascii.eqb_refl, prefix_nil. reflexivity.
Qed.

(** After [replace('inf', 'oo')] no [inf] is left. *)
Lemma replace_inf_gone (s : string) (k : nat) :
  occurs "inf" (replace_from "inf" "oo" k s) = false.
Proof.
  revert k. induction s as [| c s' IH]; intros k; [reflexivity |].
  destruct k as [| k]; [| exact (IH k)].
  rewrite replace_from_cons.
  destruct (String.prefix "inf" (String c s')) eqn:Hprefix.
  - cbn [append occurs String.length Nat.sub]. rewrite !prefix_cons. cbn.
    exact (IH 2%nat).
  - cbn [occurs]. rewrite (IH 0%nat), orb_false_r.
    destruct (String.prefix "inf" (String c (replace_from "inf" "oo" 0 s')))
      eqn:Hout; [| reflexivity].
    rewrite (replace_inf_prefix _ _ Hout) in Hprefix. discriminate.
Qed.

Lemma e_to_E_keeps (x c : ascii) :
  x <> "e"%char -> x <> "E"%char ->
  Ascii.eqb x (e_to_E c) = Ascii.eqb x c.
Proof.
  intros He HE. unfold e_to_E. destruct (Ascii.eqb c "e") eqn:Hc; [| reflexivity].
  apply Ascii.eqb_eq in Hc. subst c.
  apply Ascii.eqb_neq in He, HE. rewrite He, HE. reflexivity.
Qed.

Lemma occurs_inf_e_to_E (s : string) :
  occurs "inf" (map_chars e_to_E s) = occurs "inf" s.
Proof.
  assert (Hprefix : forall t, String.prefix "inf" (map_chars e_to_E t)
                              = String.prefix "inf" t).
  { intros [| a [| b [| c t]]]; try reflexivity;
      cbn [map_chars]; rewrite !prefix_cons, ?prefix_nil;
      rewrite ?e_to_E_keeps by discriminate; reflexivity. }
  induction s as [| c s' IH]; [reflexivity |].
  cbn [occurs]. rewrite <- IH. cbn [map_chars occurs].
  change (String (e_to_E c) (map_chars e_to_E s'))
    with (map_chars e_to_E (String c s')).
  rewrite Hprefix. reflexivity.
Qed.

End TextFacts.

(** ** The bound texts (lines 118-119) *)

Section BoundTextFacts.

(** X1. What reaches [parse_expr] for a bound: a text in which [inf] does not
    occur, with no letter [e] and no upper-case letter other than [E],
    whatever the user typed. *)
Theorem normalize_bound_output (s : string) :
  occurs "inf" (normalize_bound s) = false
  /\ all_chars normalized_char (normalize_bound s) = true.
Proof.
  unfold normalize_bound. rewrite replace_e_E. split.
  - rewrite occurs_inf_e_to_E. apply replace_inf_gone.
  - rewrite all_chars_map.
    apply (all_chars_impl (fun c => negb (is_upper c))).
    + intros c Hc. unfold normalized_char, e_to_E.
      destruct (Ascii.eqb c "e") eqn:He; [reflexivity |].
      rewrite He, Hc. reflexivity.
    + apply all_chars_replace_from; [reflexivity | apply lower_not_upper].
Qed.

(** X2. Normalising twice is normalising once, on an ASCII text (where
    [lower] is Python's [str.lower()]). *)
Theorem normalize_bound_idempotent (s : string) :
  all_chars is_ascii s = true ->
  normalize_bound (normalize_bound s) = normalize_bound s.
Proof.
  intros _. unfold normalize_bound. rewrite !replace_e_E.
  set (u := replace "inf" "oo" (lower s)).
  assert (Hu : all_chars (fun c => negb (is_upper c)) u = true).
  { apply all_chars_replace_from; [reflexivity | apply lower_not_upper]. }
  assert (Hlower : lower (map_chars e_to_E u) = u).
  { clearbody u. induction u as [| c u' IH]; [reflexivity |].
    cbn [all_chars] in Hu. apply andb_true_iff in Hu. destruct Hu as [Hc Hu'].
    cbn [map_chars lower]. rewrite (IH Hu'). f_equal.
    unfold e_to_E. destruct (Ascii.eqb c "e") eqn:He.
    - apply Ascii.eqb_eq in He. subst c. reflexivity.
    - apply lower_ascii_fixed. apply negb_true_iff. exact Hc. }
  rewrite Hlower, (replace_absent "inf" "oo" u); [reflexivity |].
  apply replace_inf_gone.
Qed.

(** X3. An ASCII text with no upper-case letter, no letter [e] and no [inf]
    reaches [parse_expr] as typed. *)
Theorem normalize_bound_unchanged (s : string) :
  all_chars is_ascii s = true ->
  all_chars (fun c => negb (is_upper c)) s = true ->
  all_chars (fun c => negb (Ascii.eqb c "e")) s = true ->
  occurs "inf" s = false ->
  normalize_bound s = s.
Proof.
  intros _ Hupper He Hinf. unfold normalize_bound.
  rewrite (lower_fixed s Hupper), (replace_absent _ _ _ Hinf), replace_e_E.
  induction s as [| c s' IH]; [reflexivity |].
  cbn [all_chars] in *. apply andb_true_iff in Hupper, He.
  destruct Hupper as [_ Hupper], He as [Hc He].
  cbn [occurs] in Hinf. apply orb_false_iff in Hinf. destruct Hinf as [_ Hinf].
  cbn [map_chars]. rewrite (IH Hupper He Hinf). f_equal.
  unfold e_to_E. apply negb_true_iff in Hc. rewrite Hc. reflexivity.
Qed.

End BoundTextFacts.

Lemma normalize_bound_idempotent_witness :
  all_chars is_ascii "-Inf+E" = true
  /\ normalize_bound "-Inf+E" = "-oo+E"
  /\ normalize_bound (normalize_bound "-Inf+E") = normalize_bound "-Inf+E".
Proof.
  split; [reflexivity |]. split; [reflexivity |].
  exact (normalize_bound_idempotent "-Inf+E" eq_refl).
Defined.

Lemma normalize_bound_unchanged_witness :
  all_chars is_ascii "2*pi" = true
  /\ all_chars (fun c => negb (is_upper c)) "2*pi" = true
  /\ all_chars (fun c => negb (Ascii.eqb c "e")) "2*pi" = true
  /\ occurs "inf" "2*pi" = false
  /\ normalize_bound "2*pi" = "2*pi".
Proof.
  repeat (split; [reflexivity |]).
  exact (normalize_bound_unchanged "2*pi" eq_refl eq_refl eq_refl eq_refl).
Defined.

(** ** More on the classifier *)

Section MoreClassifierFacts.

Context {Expr : Type} (E : Engine Expr).

Lemma up_to_first_hit_found (hit : Expr -> bool) (items : list Expr) (p : Expr) :
  find hit items = Some p ->
  exists before,
    up_to_first_hit hit items = (before ++ [p])%list
    /\ (forall q, In q before -> hit q = false)
    /\ exists after, items = (before ++ p :: after)%list.
Proof.
  induction items as [| x rest IH]; [discriminate |].
  cbn [find up_to_first_hit]. destruct (hit x) eqn:Hx.
  - intros [= <-]. exists []. repeat split; [intros q [] |].
    exists rest. reflexivity.
  - intros Hfind. destruct (IH Hfind) as (before & Heq & Hbefore & after & Hitems).
    exists (x :: before). cbn [app]. rewrite Heq. repeat split.
    + intros q [<- | Hq]; auto.
    + exists after. rewrite Hitems. reflexivity.
Qed.

Lemma up_to_first_hit_all (hit : Expr -> bool) (items : list Expr) :
  find hit items = None -> up_to_first_hit hit items = items.
Proof.
  induction items as [| x rest IH]; [reflexivity |].
  cbn [find up_to_first_hit]. destruct (hit x); [discriminate |].
  intros Hfind. rewrite (IH Hfind). reflexivity.
Qed.

Lemma loop_trace_exact (f a_sym b_sym : Expr) (i : Interval Expr)
    (points : list Expr) :
  trace (for_each points (loop_body E f a_sym b_sym i))
  = map (fun p => EvContains p i)
      (up_to_first_hit (leaves_loop E i) points).
Proof.
  induction points as [| q rest IH]; [reflexivity |].
  cbn [for_each up_to_first_hit map]. unfold leaves_loop at 1.
  unfold trace in IH.
  unfold loop_body at 1, call_contains, bind at 1 2, trace.
  cbn [fst snd].
  destruct (contains E q i) as [e | []];
    cbn [of_result fst snd return_ ret app map]; try reflexivity.
  rewrite IH. reflexivity.
Qed.

Lemma closed_block_trace_exact (f a_sym b_sym : Expr) (s : Points Expr) :
  infinite E a_sym = false -> infinite E b_sym = false ->
  trace (closed_block E f a_sym b_sym s)
  = match interval_error E a_sym b_sym with
    | Some _ => []
    | None =>
        map (fun p => EvContains p (sympy_Interval a_sym b_sym))
          (up_to_first_hit (leaves_loop E (sympy_Interval a_sym b_sym))
             (listed s))
    end.
Proof.
  intros Ha Hb. destruct (interval_error E a_sym b_sym) as [e |] eqn:Hi.
  - rewrite (closed_block_refused E _ _ _ _ _ Ha Hb Hi). reflexivity.
  - rewrite (closed_block_built E _ _ _ _ Ha Hb Hi). unfold trace at 1.
    cbn [snd]. apply loop_trace_exact.
Qed.

Lemma find_none_all_outside (i : Interval Expr) (points : list Expr) :
  find (leaves_loop E i) points = None ->
  forall q, In q points -> contains E q i = inr false.
Proof.
  intros Hfind q Hin. pose proof (find_none _ _ Hfind q Hin) as Hq.
  unfold leaves_loop in Hq.
  destruct (contains E q i) as [e | []]; try discriminate Hq. reflexivity.
Qed.

(** X4. On the closed tag with bounds that are not infinite and an
    interval that is built, the singularities are tested in order and the
    loop is left at the first one whose test is [True] or raises: the
    membership tests asked are those of that point and of the points before
    it, each of which is outside.  When the test of that point is [True]
    it is the point the justification names; when it raises, the exception
    leaves the function.  When no such point exists every point is tested
    and is outside, and the function returns "uniformly continuous" once
    the iteration is over. *)
Theorem loop_stops_at_first_singularity (func_str : string)
    (f a_sym b_sym : Expr) :
  parse_expr E FunctionText func_str = inr f ->
  infinite E a_sym = false ->
  infinite E b_sym = false ->
  interval_built E a_sym b_sym ->
  let i := sympy_Interval a_sym b_sym in
  let points := computed_singularities E f in
  let run := check_uniform_continuity E func_str tag_closed a_sym b_sym in
  trace run
  = EvParse FunctionText func_str :: EvSingularities f
      :: map (fun p => EvContains p i)
           (up_to_first_hit (leaves_loop E i) points)
  /\ (forall p,
        find (leaves_loop E i) points = Some p ->
        (exists before after,
            points = (before ++ p :: after)%list
            /\ up_to_first_hit (leaves_loop E i) points = (before ++ [p])%list
            /\ forall q, In q before -> contains E q i = inr false)
        /\ (contains E p i = inr true ->
            outcome run
            = Normal (verdict_not_uc, reason_discontinuous E a_sym b_sym p,
                      Some f))
        /\ (forall e, contains E p i = inl e -> outcome run = Raised e))
  /\ (find (leaves_loop E i) points = None ->
      up_to_first_hit (leaves_loop E i) points = points
      /\ (forall q, In q points -> contains E q i = inr false)
      /\ (ending (computed_set E f) = exhausted ->
          outcome run
          = Normal (verdict_uc, reason_heine_cantor E a_sym b_sym, Some f))).
Proof.
  intros Hparse Ha Hb Hbuilt i points run. subst run.
  rewrite (check_parsed E _ _ _ _ _ Hparse).
  unfold if_else_block. rewrite String.eqb_refl.
  rewrite (closed_block_finite E _ _ _ _ Ha Hb).
  rewrite (closed_block_trace_exact _ _ _ _ Ha Hb).
  unfold closed_exit, loop_exit. rewrite Hbuilt.
  fold (computed_singularities E f). fold i points.
  unfold outcome, trace. cbn [fst snd].
  split; [reflexivity |]. split.
  - intros p Hfind. rewrite Hfind. split; [| split].
    + destruct (up_to_first_hit_found (leaves_loop E i) points p Hfind)
        as (before & Heq & Hbefore & after & Hpoints).
      exists before, after. split; [exact Hpoints |]. split; [exact Heq |].
      intros q Hq. specialize (Hbefore q Hq). unfold leaves_loop in Hbefore.
      destruct (contains E q i) as [e | []]; try discriminate Hbefore.
      reflexivity.
    + intros ->. reflexivity.
    + intros e ->. reflexivity.
  - intros Hfind. rewrite Hfind. split; [| split].
    + apply up_to_first_hit_all. exact Hfind.
    + apply find_none_all_outside. exact Hfind.
    + intros ->. reflexivity.
Qed.


Lemma up_to_first_hit_incl (hit : Expr -> bool) (items : list Expr) :
  forall x, In x (up_to_first_hit hit items) -> In x items.
Proof.
  induction items as [| y rest IH]; [intros x [] |].
  cbn [up_to_first_hit]. intros x [<- | Hin]; [left; reflexivity |].
  right. destruct (hit y); [destruct Hin | exact (IH x Hin)].
Qed.

Lemma str_in_two (s t1 t2 : string) :
  str_in s [t1; t2] = true <-> s = t1 \/ s = t2.
Proof.
  unfold str_in. cbn [existsb]. rewrite orb_false_r, orb_true_iff.
  rewrite !String.eqb_eq. tauto.
Qed.

(** X5. Which calls a run makes after the parse.  A limit is asked only of
    the parsed function, on a tag other than [[a, b]]: from the right at
    the left bound on the tags [(a, b)] and [(a, b]], and from the left at
    the right bound on the tags [(a, b)] and [[a, b)], the latter only when
    the left-endpoint test did not succeed.  A membership test is asked
    only on the tag [[a, b]] with no infinite bound, of a computed
    singularity and of the closed interval of the two bounds. *)
Theorem engine_calls_follow_the_tag (func_str interval_type : string)
    (a_sym b_sym : Expr) :
  let run := check_uniform_continuity E func_str interval_type a_sym b_sym in
  (forall g point d,
      In (EvLimit g point d) (trace run) ->
      parse_expr E FunctionText func_str = inr g
      /\ interval_type <> tag_closed
      /\ ((point = a_sym /\ d = dir_plus
           /\ (interval_type = tag_open \/ interval_type = tag_left_open))
          \/ (point = b_sym /\ d = dir_minus
              /\ (interval_type = tag_open \/ interval_type = tag_right_open)
              /\ left_check_fires E interval_type g a_sym = false)))
  /\ (forall p i,
        In (EvContains p i) (trace run) ->
        interval_type = tag_closed
        /\ infinite E a_sym = false
        /\ infinite E b_sym = false
        /\ i = sympy_Interval a_sym b_sym
        /\ exists f, parse_expr E FunctionText func_str = inr f
                     /\ In p (computed_singularities E f)).
Proof.
  intros run. subst run.
  destruct (parse_expr E FunctionText func_str) as [e | f] eqn:Hparse.
  { rewrite (check_unparsed E _ _ _ _ _ Hparse). unfold trace. cbn [snd].
    split; [intros g point d [H | []] | intros p i [H | []]]; discriminate H. }
  assert (Htrace :
    trace (check_uniform_continuity E func_str interval_type a_sym b_sym)
    = EvParse FunctionText func_str :: EvSingularities f
        :: trace (if_else_block E interval_type f a_sym b_sym
                    (computed_set E f))).
  { rewrite (check_parsed E _ _ _ _ _ Hparse). reflexivity. }
  rewrite Htrace. clear Htrace. unfold if_else_block.
  destruct (String.eqb interval_type tag_closed) eqn:Htag.
  - apply String.eqb_eq in Htag. subst interval_type. split.
    + intros g point d [H | [H | H]]; try discriminate H.
      apply closed_block_trace in H. discriminate H.
    + intros p i [H | [H | H]]; try discriminate H.
      destruct (infinite E a_sym) eqn:Ha;
        [| destruct (infinite E b_sym) eqn:Hb].
      * rewrite closed_block_infinite in H by auto. destruct H.
      * rewrite closed_block_infinite in H by auto. destruct H.
      * rewrite (closed_block_trace_exact _ _ _ _ Ha Hb) in H.
        destruct (interval_error E a_sym b_sym); [destruct H |].
        apply in_map_iff in H. destruct H as (q & [= -> ->] & Hq).
        apply up_to_first_hit_incl in Hq.
        repeat split; try reflexivity. exists f. auto.
  - apply String.eqb_neq in Htag. rewrite open_block_trace. split.
    + intros g point d [H | [H | H]]; try discriminate H.
      apply in_app_or in H. destruct H as [H | H].
      * destruct (str_in interval_type [tag_open; tag_left_open]) eqn:Hopen;
          [| destruct H].
        destruct H as [[= <- <- <-] | []].
        apply str_in_two in Hopen. repeat split; auto.
      * destruct (left_check_fires E interval_type f a_sym) eqn:Hleft;
          [destruct H |].
        destruct (str_in interval_type [tag_open; tag_right_open]) eqn:Hopen;
          [| destruct H].
        destruct H as [[= <- <- <-] | []].
        apply str_in_two in Hopen. repeat split; auto.
    + intros p i [H | [H | H]]; try discriminate H.
      apply in_app_or in H.
      destruct H as [H | H];
        match type of H with
        | In _ (if ?c then _ else _) => destruct c
        end;
        cbn [In] in H;
        repeat (destruct H as [H | H]; [discriminate H |]); destruct H.
Qed.

(** X6. On a tag other than [[a, b]] the singularities are computed but play
    no part: the call returns the same with any other [singularities]
    routine. *)
Theorem open_tags_ignore_singularities (func_str interval_type : string)
    (a_sym b_sym : Expr) (routine : Expr -> Exn + Points Expr) :
  interval_type <> tag_closed ->
  outcome (check_uniform_continuity (with_singularities E routine)
             func_str interval_type a_sym b_sym)
  = outcome (check_uniform_continuity E func_str interval_type a_sym b_sym).
Proof.
  intros Htag. apply String.eqb_neq in Htag.
  destruct (parse_expr E FunctionText func_str) as [e | f] eqn:Hparse.
  - rewrite (check_unparsed E _ _ _ _ _ Hparse).
    rewrite (check_unparsed (with_singularities E routine) _ _ _ _ _ Hparse).
    reflexivity.
  - rewrite (check_parsed E _ _ _ _ _ Hparse).
    rewrite (check_parsed (with_singularities E routine) _ _ _ _ _ Hparse).
    unfold if_else_block. rewrite Htag, !open_block_outcome. reflexivity.
Qed.


Lemma append_not_empty (s t : string) : s <> "" -> (s ++ t) <> "".
Proof. destruct s; [congruence | discriminate]. Qed.

Lemma reason_of_block_not_empty (interval_type : string) (f a_sym b_sym : Expr)
    (s : Points Expr) (r : Result) :
  outcome (if_else_block E interval_type f a_sym b_sym s) = Returned r ->
  reason r <> "".
Proof.
  unfold if_else_block.
  destruct (String.eqb interval_type tag_closed).
  - destruct (infinite E a_sym) eqn:Ha; [| destruct (infinite E b_sym) eqn:Hb].
    + rewrite closed_block_infinite by auto. intros [= <-]. discriminate.
    + rewrite closed_block_infinite by auto. intros [= <-]. discriminate.
    + rewrite (closed_block_finite E _ _ _ _ Ha Hb). unfold closed_exit.
      destruct (interval_error E a_sym b_sym); [discriminate |].
      destruct (loop_exit E f a_sym b_sym (sympy_Interval a_sym b_sym)
                  (listed s)) as [[] | r0 | e | |] eqn:Hloop;
        try discriminate.
      * destruct (ending s); try discriminate. intros [= <-].
        cbn [reason fst snd]. apply append_not_empty. discriminate.
      * intros [= <-].
        destruct (loop_exit_returned E _ _ _ _ _ _ Hloop) as (p & _ & _ & ->).
        cbn [reason fst snd]. apply append_not_empty. discriminate.
  - rewrite open_block_outcome.
    destruct (left_check_fires E interval_type f a_sym);
      [| destruct (right_check_fires E interval_type f b_sym)];
      intros [= <-]; cbn [reason fst snd];
      try (apply append_not_empty); discriminate.
Qed.

(** X7. A justification is always given: whatever a call returns, the
    second component of the triple is not the empty string, so that the
    empty text of line 60 is never the one returned. *)
Theorem justification_never_empty (func_str interval_type : string)
    (a_sym b_sym : Expr) (r : Result) :
  outcome (check_uniform_continuity E func_str interval_type a_sym b_sym)
  = Normal r ->
  reason r <> "".
Proof.
  destruct (parse_expr E FunctionText func_str) as [e | f] eqn:Hparse.
  - rewrite (check_unparsed E _ _ _ _ _ Hparse). intros [= <-].
    cbn [reason fst snd]. apply append_not_empty. discriminate.
  - rewrite (check_parsed E _ _ _ _ _ Hparse). unfold outcome at 1.
    cbn [fst].
    destruct (if_else_block_ends E interval_type f a_sym b_sym
                (computed_set E f)) as (Hnormal & _ & _).
    destruct (outcome (if_else_block E interval_type f a_sym b_sym
                         (computed_set E f))) as [u | r0 | e | |] eqn:Hblock;
      try discriminate.
    + destruct (Hnormal u eq_refl).
    + intros [= <-]. exact (reason_of_block_not_empty _ _ _ _ _ _ Hblock).
Qed.

(** X22. The [return] of line 86 is never executed: no path through the
    [if]/[else] block runs to the end of the block.  So a call that
    returns has returned at one of the [return] statements before line 86:
    its verdict is one of the four strings "uniformly continuous", "not
    uniformly continuous", "cannot classify" and "error", and it is not the
    fifth string of line 86. *)
Theorem fallback_is_never_returned (func_str interval_type : string)
    (a_sym b_sym : Expr) :
  (forall f s u,
      outcome (if_else_block E interval_type f a_sym b_sym s) <> Normal u)
  /\ forall r,
       outcome (check_uniform_continuity E func_str interval_type
                  a_sym b_sym) = Normal r ->
       In (verdict r)
          [verdict_uc; verdict_not_uc; verdict_cannot_classify;
           verdict_error]
       /\ verdict r <> verdict_fallback.
Proof.
  split.
  - intros f s.
    exact (proj1 (if_else_block_ends E interval_type f a_sym b_sym s)).
  - intros r Hr.
    assert (Hfour : In (verdict r)
                       [verdict_uc; verdict_not_uc; verdict_cannot_classify;
                        verdict_error]).
    { destruct (parse_expr E FunctionText func_str) as [e | f] eqn:Hparse.
      - rewrite (check_unparsed E _ _ _ _ _ Hparse) in Hr.
        injection Hr as <-. cbn. auto.
      - destruct (check_parsed_returns E func_str interval_type f a_sym b_sym
                    r Hparse Hr) as (v & j & -> & Hv).
        unfold verdict. cbn [fst]. cbn [In] in *. tauto. }
    split; [exact Hfour |].
    intros Heq. rewrite Heq in Hfour. cbn [In] in Hfour.
    repeat (destruct Hfour as [Hfour | Hfour]; [discriminate Hfour |]).
    exact Hfour.
Qed.

(** X8. A tag that is none of the four of the selector takes the [else]
    branch and passes neither membership test: no limit is computed and a
    function that parses is reported uniformly continuous, whatever it
    is. *)
Theorem unknown_tag_counts_as_uniform (func_str interval_type : string)
    (f a_sym b_sym : Expr) :
  parse_expr E FunctionText func_str = inr f ->
  str_in interval_type [tag_closed; tag_open; tag_right_open; tag_left_open]
  = false ->
  check_uniform_continuity E func_str interval_type a_sym b_sym
  = (Normal (verdict_uc, reason_finite_limits, Some f),
     [EvParse FunctionText func_str; EvSingularities f]).
Proof.
  intros Hparse Htag. unfold str_in in Htag. cbn [existsb] in Htag.
  rewrite orb_false_r in Htag. repeat rewrite orb_false_iff in Htag.
  destruct Htag as (Hclosed & Hopen & Hright & Hleft).
  rewrite (check_parsed E _ _ _ _ _ Hparse).
  unfold if_else_block. rewrite Hclosed.
  rewrite open_block_outcome, open_block_trace.
  unfold left_check_fires, right_check_fires, str_in. cbn [existsb].
  rewrite Hopen, Hright, Hleft. reflexivity.
Qed.

(** X9. The verdicts of the three open tags agree in one direction: when the
    call on [(a, b)] reports uniform continuity, so do the calls on
    [(a, b]] and on [[a, b)] with the same function and bounds. *)
Theorem open_verdict_carries_to_half_open (func_str : string)
    (a_sym b_sym : Expr) (r : Result) :
  outcome (check_uniform_continuity E func_str tag_open a_sym b_sym)
  = Normal r ->
  verdict r = verdict_uc ->
  outcome (check_uniform_continuity E func_str tag_left_open a_sym b_sym)
  = Normal r
  /\ outcome (check_uniform_continuity E func_str tag_right_open a_sym b_sym)
     = Normal r.
Proof.
  destruct (parse_expr E FunctionText func_str) as [e | f] eqn:Hparse.
  { rewrite (check_unparsed E _ _ _ _ _ Hparse). intros [= <-] Hv.
    discriminate Hv. }
  rewrite !(check_parsed E _ _ _ _ _ Hparse).
  unfold if_else_block, outcome at 1 3 5. cbn [fst].
  change (String.eqb tag_open tag_closed) with false.
  change (String.eqb tag_left_open tag_closed) with false.
  change (String.eqb tag_right_open tag_closed) with false.
  cbv iota. rewrite !open_block_outcome.
  unfold left_check_fires, right_check_fires.
  change (str_in tag_open [tag_open; tag_left_open]) with true.
  change (str_in tag_open [tag_open; tag_right_open]) with true.
  change (str_in tag_left_open [tag_open; tag_left_open]) with true.
  change (str_in tag_left_open [tag_open; tag_right_open]) with false.
  change (str_in tag_right_open [tag_open; tag_left_open]) with false.
  change (str_in tag_right_open [tag_open; tag_right_open]) with true.
  cbn [andb].
  destruct (limit_is_infinite E f a_sym dir_plus);
    [intros [= <-] Hv; discriminate Hv |].
  destruct (limit_is_infinite E f b_sym dir_minus);
    [intros [= <-] Hv; discriminate Hv |].
  intros [= <-] _. split; reflexivity.
Qed.

End MoreClassifierFacts.

Lemma loop_stops_at_first_singularity_witness :
  trace (check_uniform_continuity
           (with_singularities Demo.engine
              (fun _ => inr (py_list [Demo.Int 5; Demo.Int 1; Demo.Int 2])))
           "1/x" tag_closed (Demo.Int 0) (Demo.Int 2))
  = [EvParse FunctionText "1/x"; EvSingularities Demo.Recip_x;
     EvContains (Demo.Int 5) (sympy_Interval (Demo.Int 0) (Demo.Int 2));
     EvContains (Demo.Int 1) (sympy_Interval (Demo.Int 0) (Demo.Int 2))].
Proof.
  destruct (loop_stops_at_first_singularity
              (with_singularities Demo.engine
                 (fun _ => inr (py_list [Demo.Int 5; Demo.Int 1; Demo.Int 2])))
              "1/x" Demo.Recip_x (Demo.Int 0) (Demo.Int 2)
              eq_refl eq_refl eq_refl eq_refl)
    as [Htrace _].
  exact Htrace.
Defined.

Lemma justification_never_empty_witness :
  outcome (check_uniform_continuity Demo.engine "1/x" tag_open
             (Demo.Int 0) (Demo.Int 1))
  = Normal (verdict_not_uc, reason_left_endpoint Demo.engine (Demo.Int 0),
            Some Demo.Recip_x)
  /\ reason_left_endpoint Demo.engine (Demo.Int 0) <> "".
Proof.
  split; [reflexivity |].
  exact (justification_never_empty Demo.engine "1/x" tag_open
           (Demo.Int 0) (Demo.Int 1)
           (verdict_not_uc, reason_left_endpoint Demo.engine (Demo.Int 0),
            Some Demo.Recip_x) eq_refl).
Defined.

Lemma fallback_is_never_returned_witness :
  In verdict_cannot_classify
     [verdict_uc; verdict_not_uc; verdict_cannot_classify; verdict_error]
  /\ verdict_cannot_classify <> verdict_fallback.
Proof.
  exact (proj2 (fallback_is_never_returned Demo.engine "sin(x)" tag_closed
                  Demo.neg_oo Demo.oo)
           (verdict_cannot_classify, reason_closed_infinite, Some Demo.Sin_x)
           eq_refl).
Defined.

Lemma open_tags_ignore_singularities_witness :
  tag_open <> tag_closed
  /\ outcome (check_uniform_continuity
                (with_singularities Demo.engine
                   (fun _ => inl "NotImplementedError"))
                "1/x" tag_open (Demo.Int 0) (Demo.Int 1))
     = outcome (check_uniform_continuity Demo.engine
                  "1/x" tag_open (Demo.Int 0) (Demo.Int 1)).
Proof.
  split; [discriminate |].
  apply open_tags_ignore_singularities. discriminate.
Defined.

Lemma unknown_tag_counts_as_uniform_witness :
  check_uniform_continuity Demo.engine "1/x" "[a,b]" (Demo.Int 0) (Demo.Int 1)
  = (Normal (verdict_uc, reason_finite_limits, Some Demo.Recip_x),
     [EvParse FunctionText "1/x"; EvSingularities Demo.Recip_x]).
Proof.
  apply unknown_tag_counts_as_uniform; reflexivity.
Defined.

Lemma open_verdict_carries_to_half_open_witness :
  outcome (check_uniform_continuity Demo.engine "1/x" tag_left_open
             (Demo.Int 1) Demo.oo)
  = Normal (verdict_uc, reason_finite_limits, Some Demo.Recip_x)
  /\ outcome (check_uniform_continuity Demo.engine "1/x" tag_right_open
                (Demo.Int 1) Demo.oo)
     = Normal (verdict_uc, reason_finite_limits, Some Demo.Recip_x).
Proof.
  apply (open_verdict_carries_to_half_open Demo.engine "1/x"
           (Demo.Int 1) Demo.oo
           (verdict_uc, reason_finite_limits, Some Demo.Recip_x));
    reflexivity.
Defined.

(** ** More on the script *)

Section MoreScriptFacts.

Context {Expr : Type} (E : Engine Expr).

Lemma read_bounds_first_unparsed (a_str b_str : string) (e : Exn) :
  parse_expr E BoundText (normalize_bound a_str) = inl e ->
  read_bounds E a_str b_str
  = (Stopped,
     [EvParse BoundText (normalize_bound a_str);
      EvUi (st_error (msg_bound_failure a_str b_str e)); EvUi st_stop]).
Proof.
  intros Hpa.
  unfold read_bounds, call_parse, raise, stop, emit, bind, try_except, ret.
  cbn [fst snd]. rewrite Hpa. reflexivity.
Qed.

Lemma read_bounds_second_unparsed (a_str b_str : string) (a_sym : Expr)
    (e : Exn) :
  parse_expr E BoundText (normalize_bound a_str) = inr a_sym ->
  parse_expr E BoundText (normalize_bound b_str) = inl e ->
  read_bounds E a_str b_str
  = (Stopped,
     [EvParse BoundText (normalize_bound a_str);
      EvParse BoundText (normalize_bound b_str);
      EvUi (st_error (msg_bound_failure a_str b_str e)); EvUi st_stop]).
Proof.
  intros Hpa Hpb.
  unfold read_bounds, call_parse, raise, stop, emit, bind, try_except, ret.
  cbn [fst snd]. rewrite Hpa. cbn [fst snd of_result]. rewrite Hpb.
  reflexivity.
Qed.

Lemma submit_stopped (func_input a_str b_str interval_type : string)
    (t : list (Event Expr)) :
  read_bounds E a_str b_str = (Stopped, t) ->
  submit E func_input a_str b_str interval_type = (Stopped, t).
Proof. intros H. unfold submit, bind. rewrite H. reflexivity. Qed.

(** After the bounds: the call of the classifier and, when it returns,
    the display of what it returned. *)
Lemma submit_after_bounds (func_input a_str b_str interval_type : string)
    (a_sym b_sym : Expr) (t : list (Event Expr)) :
  read_bounds E a_str b_str = (Normal (a_sym, b_sym), t) ->
  submit E func_input a_str b_str interval_type
  = (match outcome (check_uniform_continuity E func_input interval_type
                      a_sym b_sym) with
     | Normal r => outcome (show_result E r a_sym b_sym)
     | Returned r => Returned r
     | Raised e => Raised e
     | Stopped => Stopped
     | Diverged => Diverged
     end,
     t ++ EvCheck func_input interval_type a_sym b_sym
       :: trace (check_uniform_continuity E func_input interval_type
                   a_sym b_sym)
       ++ match outcome (check_uniform_continuity E func_input interval_type
                           a_sym b_sym) with
          | Normal r => trace (show_result E r a_sym b_sym)
          | _ => []
          end)%list.
Proof.
  intros H. unfold submit, bind at 1. rewrite H. cbn [fst snd].
  unfold bind, emit, outcome, trace. cbn [fst snd app].
  destruct (check_uniform_continuity E func_input interval_type a_sym b_sym)
    as [[r | r | e | |] t']; cbn [fst snd]; rewrite ?app_nil_r; reflexivity.
Qed.

(** How the [try] statement of the bounds ends: with the two bounds, or
    stopped after one error message; until then it only queried the
    engine about the bounds. *)
Lemma read_bounds_cases (a_str b_str : string) :
  (exists a_sym b_sym t,
      read_bounds E a_str b_str = (Normal (a_sym, b_sym), t)
      /\ forallb is_bound_query t = true)
  \/ (exists t m,
        read_bounds E a_str b_str
        = (Stopped, (t ++ [EvUi (st_error m); EvUi st_stop])%list)
        /\ forallb is_bound_query t = true
        /\ (m = msg_ordering
            \/ exists e, m = msg_bound_failure a_str b_str e)).
Proof.
  destruct (parse_expr E BoundText (normalize_bound a_str)) as [e | a] eqn:Hpa.
  { right. exists [EvParse BoundText (normalize_bound a_str)].
    eexists. rewrite (read_bounds_first_unparsed _ _ _ Hpa).
    split; [reflexivity |]. split; [reflexivity |]. right. exists e.
    reflexivity. }
  destruct (parse_expr E BoundText (normalize_bound b_str)) as [e | b] eqn:Hpb.
  { right. exists [EvParse BoundText (normalize_bound a_str);
                   EvParse BoundText (normalize_bound b_str)].
    eexists. rewrite (read_bounds_second_unparsed _ _ _ _ Hpa Hpb).
    split; [reflexivity |]. split; [reflexivity |]. right. exists e.
    reflexivity. }
  rewrite (read_bounds_parsed E _ _ _ _ Hpa Hpb). cbv zeta.
  destruct (negb (real_or_infinite E a) || negb (real_or_infinite E b)).
  { right. do 2 eexists. split; [reflexivity |]. split; [reflexivity |].
    right. eexists. reflexivity. }
  destruct (negb (infinite E a) && negb (infinite E b)).
  2:{ left. do 3 eexists. split; reflexivity. }
  destruct (evalf E a) as [e | qa].
  { right. do 2 eexists. split; [reflexivity |]. split; [reflexivity |].
    right. eexists. reflexivity. }
  destruct (evalf E b) as [e | qb].
  { right. do 2 eexists. split; [reflexivity |]. split; [reflexivity |].
    right. eexists. reflexivity. }
  destruct (Qle_bool qb qa).
  - right. exists [EvParse BoundText (normalize_bound a_str);
                   EvParse BoundText (normalize_bound b_str);
                   EvEvalf a; EvEvalf b].
    exists msg_ordering. split; [reflexivity |]. split; [reflexivity |].
    left. reflexivity.
  - left. do 3 eexists. split; reflexivity.
Qed.

(** X10. One press of the button ends in one of three ways.  Either the
    bounds are rejected: after engine queries about the bounds only, the
    script shows one error message (the ordering message, or the
    bound-failure message with both texts as typed) and stops, without a
    call of the classifier.  Or the bounds stand and the classifier, called
    once on them, returns: the script shows the banner of the verdict, the
    heading and the justification, and then enters the chart block and ends
    normally when the truth value of the returned expression is [True],
    ends normally without the chart block when it is [False] or there is
    no expression, and is left by the exception of [bool()] when that
    raises.  Or the bounds stand and the classifier does not return: the
    script shows nothing after the call and ends as the call does, by its
    exception or not at all. *)
Theorem submit_run_shape (func_input a_str b_str interval_type : string) :
  (exists t m,
      submit E func_input a_str b_str interval_type
      = (Stopped, (t ++ [EvUi (st_error m); EvUi st_stop])%list)
      /\ forallb is_bound_query t = true
      /\ (m = msg_ordering \/ exists e, m = msg_bound_failure a_str b_str e))
  \/ (exists a_sym b_sym r t chart,
        outcome (read_bounds E a_str b_str) = Normal (a_sym, b_sym)
        /\ outcome (check_uniform_continuity E func_input interval_type
                      a_sym b_sym) = Normal r
        /\ trace (submit E func_input a_str b_str interval_type)
           = (t ++ EvCheck func_input interval_type a_sym b_sym
                :: trace (check_uniform_continuity E func_input interval_type
                            a_sym b_sym)
                ++ verdict_display r ++ chart)%list
        /\ forallb is_bound_query t = true
        /\ ((func_sympy_truth E (expression r) = inr false
             /\ chart = []
             /\ outcome (submit E func_input a_str b_str interval_type)
                = Normal tt)
            \/ (exists f,
                  expression r = Some f
                  /\ expr_bool E f = inr true
                  /\ chart = [EvUi (st_markdown "### 함수 그래프");
                              EvPlot f a_sym b_sym]
                  /\ outcome (submit E func_input a_str b_str interval_type)
                     = Normal tt)
            \/ (exists f e,
                  expression r = Some f
                  /\ expr_bool E f = inl e
                  /\ chart = []
                  /\ outcome (submit E func_input a_str b_str interval_type)
                     = Raised e)))
  \/ (exists a_sym b_sym t,
        outcome (read_bounds E a_str b_str) = Normal (a_sym, b_sym)
        /\ trace (submit E func_input a_str b_str interval_type)
           = (t ++ EvCheck func_input interval_type a_sym b_sym
                :: trace (check_uniform_continuity E func_input interval_type
                            a_sym b_sym))%list
        /\ forallb is_bound_query t = true
        /\ ((exists e,
               outcome (check_uniform_continuity E func_input interval_type
                          a_sym b_sym) = Raised e
               /\ outcome (submit E func_input a_str b_str interval_type)
                  = Raised e)
            \/ (outcome (check_uniform_continuity E func_input interval_type
                           a_sym b_sym) = Diverged
                /\ outcome (submit E func_input a_str b_str interval_type)
                   = Diverged))).
Proof.
  destruct (read_bounds_cases a_str b_str)
    as [(a & b & t & Hread & Ht) | (t & m & Hread & Ht & Hm)].
  2:{ left. exists t, m.
      rewrite (submit_stopped func_input a_str b_str interval_type _ Hread).
      auto. }
  right.
  pose proof (submit_after_bounds func_input a_str b_str interval_type a b t
                Hread) as Hsubmit.
  assert (Hout :
    outcome (submit E func_input a_str b_str interval_type)
    = match outcome (check_uniform_continuity E func_input interval_type
                       a b) with
      | Normal r => outcome (show_result E r a b)
      | Returned r => Returned r
      | Raised e => Raised e
      | Stopped => Stopped
      | Diverged => Diverged
      end) by (rewrite Hsubmit; reflexivity).
  assert (Htr :
    trace (submit E func_input a_str b_str interval_type)
    = (t ++ EvCheck func_input interval_type a b
         :: trace (check_uniform_continuity E func_input interval_type a b)
         ++ match outcome (check_uniform_continuity E func_input
                             interval_type a b) with
            | Normal r => trace (show_result E r a b)
            | _ => []
            end)%list) by (rewrite Hsubmit; reflexivity).
  clear Hsubmit.
  assert (Hbounds : outcome (read_bounds E a_str b_str) = Normal (a, b))
    by (rewrite Hread; reflexivity).
  pose proof (check_not_stopped E func_input interval_type a b) as Hstop.
  destruct (outcome (check_uniform_continuity E func_input interval_type a b))
    as [r | [] | e | |] eqn:Hcheck.
  - left.
    exists a, b, r, t.
    exists (match expression r with
            | Some f =>
                match expr_bool E f with
                | inr true =>
                    [EvUi (st_markdown "### 함수 그래프"); EvPlot f a b]
                | _ => []
                end
            | None => []
            end).
    split; [exact Hbounds |]. split; [exact Hcheck |].
    rewrite Htr, Hout, show_result_run. unfold outcome, trace. cbn [fst snd].
    split; [reflexivity |]. split; [exact Ht |].
    unfold func_sympy_truth.
    destruct (expression r) as [f |]; [| left; auto].
    destruct (expr_bool E f) as [e | []] eqn:Hbool.
    + right. right. exists f, e. auto.
    + right. left. exists f. auto.
    + left. auto.
  - right. exists a, b, t. rewrite Htr, Hout, app_nil_r.
    split; [exact Hbounds |]. split; [reflexivity |]. split; [exact Ht |].
    left. exists e. auto.
  - destruct (Hstop eq_refl).
  - right. exists a, b, t. rewrite Htr, Hout, app_nil_r.
    split; [exact Hbounds |]. split; [reflexivity |]. split; [exact Ht |].
    right. auto.
Qed.


(** X12. The ordering of the bounds is tested only when neither is infinite:
    with an infinite bound no numeric value is asked for and the
    classifier is called on the two bounds as parsed, whatever their
    order. *)
Theorem infinite_bound_skips_ordering
    (func_input a_str b_str interval_type : string) (a_sym b_sym : Expr) :
  parse_expr E BoundText (normalize_bound a_str) = inr a_sym ->
  parse_expr E BoundText (normalize_bound b_str) = inr b_sym ->
  real_or_infinite E a_sym = true ->
  real_or_infinite E b_sym = true ->
  infinite E a_sym = true \/ infinite E b_sym = true ->
  read_bounds E a_str b_str
  = (Normal (a_sym, b_sym),
     [EvParse BoundText (normalize_bound a_str);
      EvParse BoundText (normalize_bound b_str)])
  /\ In (EvCheck func_input interval_type a_sym b_sym)
        (trace (submit E func_input a_str b_str interval_type)).
Proof.
  intros Hpa Hpb Hra Hrb Hinf.
  assert (Hread :
    read_bounds E a_str b_str
    = (Normal (a_sym, b_sym),
       [EvParse BoundText (normalize_bound a_str);
        EvParse BoundText (normalize_bound b_str)])).
  { rewrite (read_bounds_parsed E _ _ _ _ Hpa Hpb). cbv zeta.
    rewrite Hra, Hrb. cbn [negb orb].
    replace (negb (infinite E a_sym) && negb (infinite E b_sym)) with false;
      [reflexivity |].
    symmetry. apply andb_false_iff.
    destruct Hinf as [-> | ->]; [left | right]; reflexivity. }
  split; [exact Hread |].
  rewrite (submit_after_bounds func_input a_str b_str interval_type _ _ _
             Hread).
  unfold trace at 1. cbn [snd app]. do 2 right. left. reflexivity.
Qed.

(** X13. A function text that does not parse, with bounds that stand: the
    classifier is called, and the script shows the "error" verdict in a
    warning banner and the parser's message in the justification; the
    chart block is not entered and the run ends normally. *)
Theorem function_parse_error_display
    (func_input a_str b_str interval_type : string) (a_sym b_sym : Expr)
    (t : list (Event Expr)) (e : Exn) :
  read_bounds E a_str b_str = (Normal (a_sym, b_sym), t) ->
  parse_expr E FunctionText func_input = inl e ->
  submit E func_input a_str b_str interval_type
  = (Normal tt,
     t ++ [EvCheck func_input interval_type a_sym b_sym;
           EvParse FunctionText func_input;
           EvUi (st_warning "**판별 결과: 오류**");
           EvUi (st_markdown "### 판별 근거");
           EvUi (st_info ("함수식을 파싱할 수 없습니다: " ++ e))])%list.
Proof.
  intros Hread Hparse.
  rewrite (submit_after_bounds func_input a_str b_str interval_type _ _ _
             Hread).
  rewrite (check_unparsed E _ _ _ _ _ Hparse).
  unfold outcome at 2 3, trace at 1. cbn [fst snd].
  rewrite show_result_run. reflexivity.
Qed.

(** X14. The chart block is entered in exactly one case: the bounds stand,
    the classifier returns a triple that holds an expression, and the
    truth value of that expression is [True]. *)
Theorem chart_iff_parsed_and_truthy
    (func_input a_str b_str interval_type : string) :
  (exists ev, In ev (trace (submit E func_input a_str b_str interval_type))
              /\ is_plot_event ev = true)
  <-> exists a_sym b_sym r f,
        outcome (read_bounds E a_str b_str) = Normal (a_sym, b_sym)
        /\ outcome (check_uniform_continuity E func_input interval_type
                      a_sym b_sym) = Normal r
        /\ expression r = Some f
        /\ expr_bool E f = inr true.
Proof.
  rewrite submit_trace. split.
  - intros (ev & Hin & Hev). apply in_app_or in Hin.
    destruct Hin as [Hin | Hin].
    { destruct (read_bounds_cases a_str b_str)
        as [(a & b & t & Hread & Ht) | (t & m & Hread & Ht & _)];
        rewrite Hread in Hin; unfold trace in Hin; cbn [snd] in Hin.
      - rewrite forallb_forall in Ht. specialize (Ht ev Hin).
        destruct ev; try discriminate.
      - apply in_app_or in Hin. destruct Hin as [Hin | Hin].
        + rewrite forallb_forall in Ht. specialize (Ht ev Hin).
          destruct ev; try discriminate.
        + cbn [In] in Hin.
          repeat (destruct Hin as [<- | Hin]; [discriminate Hev |]).
          destruct Hin. }
    destruct (outcome (read_bounds E a_str b_str)) as [[a b] | r | e | |]
      eqn:Hread; try destruct Hin.
    { subst ev. discriminate Hev. }
    cbn [fst snd] in H. apply in_app_or in H. destruct H as [H | H].
    { apply check_trace in H. destruct H as [_ H]. congruence. }
    destruct (outcome (check_uniform_continuity E func_input interval_type
                         a b)) as [r | r | e | |] eqn:Hcheck;
      [| destruct H | destruct H | destruct H | destruct H].
    assert (Hplot : func_sympy_truth E (expression r) = inr true).
    { apply (show_result_plots E r a b). exists ev. auto. }
    unfold func_sympy_truth in Hplot.
    destruct (expression r) as [f |] eqn:Hexpr; [| discriminate Hplot].
    exists a, b, r, f. auto.
  - intros (a & b & r & f & Hread & Hcheck & Hexpr & Htruth).
    rewrite Hread. cbn [fst snd]. rewrite Hcheck.
    assert (Hplot : func_sympy_truth E (expression r) = inr true).
    { rewrite Hexpr. exact Htruth. }
    apply (show_result_plots E r a b) in Hplot.
    destruct Hplot as (ev & Hin & Hev). exists ev. split; [| exact Hev].
    apply in_or_app. right. right. apply in_or_app. right. exact Hin.
Qed.

End MoreScriptFacts.


Lemma infinite_bound_skips_ordering_witness :
  read_bounds Demo.engine "inf" "-inf"
  = (Normal (Demo.oo, Demo.neg_oo),
     [EvParse BoundText (normalize_bound "inf");
      EvParse BoundText (normalize_bound "-inf")])
  /\ In (EvCheck "sin(x)" tag_open Demo.oo Demo.neg_oo)
        (trace (submit Demo.engine "sin(x)" "inf" "-inf" tag_open)).
Proof.
  apply (infinite_bound_skips_ordering Demo.engine "sin(x)" "inf" "-inf"
           tag_open Demo.oo Demo.neg_oo);
    try reflexivity.
  left. reflexivity.
Defined.

Lemma function_parse_error_display_witness :
  submit Demo.engine "1/" "0" "1" tag_open
  = (Normal tt,
     snd (read_bounds Demo.engine "0" "1")
     ++ [EvCheck "1/" tag_open (Demo.Int 0) (Demo.Int 1);
         EvParse FunctionText "1/";
         EvUi (st_warning "**판별 결과: 오류**");
         EvUi (st_markdown "### 판별 근거");
         EvUi (st_info ("함수식을 파싱할 수 없습니다: " ++ "invalid syntax"))])%list.
Proof.
  apply (function_parse_error_display Demo.engine "1/" "0" "1" tag_open
           (Demo.Int 0) (Demo.Int 1)); reflexivity.
Defined.

(** ** The chart *)

Section ChartFacts.

Context {Expr : Type} (E : Engine Expr) (N : Toolkit Expr).

Lemma plotted_series_array (xs ys : list spec_float) :
  Np.plotted_series (fun _ => Np.array ys) xs = inr (map drawn ys).
Proof.
  unfold Np.plotted_series. rewrite masked_series. reflexivity.
Qed.

Lemma valid_y_drawn (ys : list spec_float) :
  valid_y (map drawn ys) = filter is_finite ys.
Proof.
  unfold valid_y. induction ys as [| y rest IH]; [reflexivity |].
  cbn [map filter]. rewrite IH.
  destruct y as [s | s | | s m e]; reflexivity.
Qed.

Lemma drawn_not_infinite (y : spec_float) : Np.isinf (drawn y) = false.
Proof. destruct y as [s | s | | s m e]; reflexivity. Qed.

(** What a shown figure was made of. *)
Lemma draw_shown (func_sympy a_sym b_sym : Expr) (fig : Figure) :
  draw E N func_sympy a_sym b_sym = inr fig ->
  exists lo hi f_lambda ys,
    plot_window E N a_sym b_sym = inr (lo, hi)
    /\ lambdify N func_sympy = inr f_lambda
    /\ f_lambda (linspace N lo hi) = inr (Np.array ys)
    /\ y_limits N (map drawn ys) = inr (fig_ylim fig)
    /\ fig = mkFigure (linspace N lo hi) (map drawn ys)
               ("$f(x) = " ++ latex E func_sympy ++ "$")
               (markers E a_sym b_sym lo hi) (fig_ylim fig).
Proof.
  unfold draw.
  destruct (plot_window E N a_sym b_sym) as [e | [lo hi]]; [discriminate |].
  cbn [and_then fst snd].
  destruct (lambdify N func_sympy) as [e | f_lambda]; [discriminate |].
  cbn [and_then].
  destruct (f_lambda (linspace N lo hi)) as [e | [v | ys]] eqn:Hcall;
    [discriminate | discriminate |].
  cbn [and_then]. rewrite plotted_series_array. cbn [and_then].
  destruct (axes N _) as [e | []]; [discriminate |].
  cbn [and_then].
  destruct (y_limits N (map drawn ys)) as [e | ylim] eqn:Hlim;
    [discriminate |].
  cbn [and_then].
  destruct (pyplot N _) as [e | []]; [discriminate |].
  cbn [and_then]. intros [= <-].
  exists lo, hi, f_lambda, ys. cbn [fig_ylim]. auto.
Qed.

(** X15. The line of a shown chart. The samples are those of
    [np.linspace] over the plotting window, the lambdified function gave an
    array on them, and the value drawn at each index is the evaluated one,
    or NaN where the evaluated one is an infinity; no drawn value is
    infinite. *)
Theorem chart_series (func_sympy a_sym b_sym : Expr) (fig : Figure) :
  chart_block E N func_sympy a_sym b_sym = Pyplot fig ->
  exists lo hi f_lambda ys,
    plot_window E N a_sym b_sym = inr (lo, hi)
    /\ fig_x fig = linspace N lo hi
    /\ lambdify N func_sympy = inr f_lambda
    /\ f_lambda (fig_x fig) = inr (Np.array ys)
    /\ length (fig_y fig) = length ys
    /\ (forall i, nth i (fig_y fig) Np.nan
                  = if Np.isinf (nth i ys Np.nan)
                    then Np.nan else nth i ys Np.nan)
    /\ (forall y, In y (fig_y fig) -> Np.isinf y = false).
Proof.
  unfold chart_block.
  destruct (draw E N func_sympy a_sym b_sym) as [e | fig'] eqn:Hdraw;
    [discriminate |].
  intros [= ->].
  destruct (draw_shown _ _ _ _ Hdraw)
    as (lo & hi & f_lambda & ys & Hw & Hl & Hcall & _ & ->).
  exists lo, hi, f_lambda, ys. cbn [fig_x fig_y].
  repeat split; auto.
  - apply length_map.
  - intros i. exact (map_nth drawn ys Np.nan i).
  - intros y Hin. apply in_map_iff in Hin. destruct Hin as (y0 & <- & _).
    apply drawn_not_infinite.
Qed.

Lemma plot_window_ends (a_sym b_sym : Expr) (lo hi : spec_float) :
  plot_window E N a_sym b_sym = inr (lo, hi) ->
  (infinite E a_sym = false -> to_float N a_sym = inr lo)
  /\ (infinite E b_sym = false -> to_float N b_sym = inr hi).
Proof.
  unfold plot_window, infinite.
  destruct (truthy (is_infinite E a_sym)), (truthy (is_infinite E b_sym));
    cbn [andb].
  - intros _. split; discriminate.
  - destruct (to_float N b_sym) as [e | fb]; [discriminate |].
    cbn [and_then]. intros [= <- <-]. split; [discriminate | reflexivity].
  - destruct (to_float N a_sym) as [e | fa]; [discriminate |].
    cbn [and_then]. intros [= <- <-]. split; [reflexivity | discriminate].
  - destruct (to_float N a_sym) as [e | fa]; [discriminate |].
    cbn [and_then].
    destruct (to_float N b_sym) as [e | fb]; [discriminate |].
    cbn [and_then]. intros [= <- <-]. split; reflexivity.
Qed.

(** X16. The dashed vertical lines of a shown chart. There is
    one for each bound that is not infinite, at the float value of that
    bound, the left one first, and none for an infinite bound. *)
Theorem chart_markers (func_sympy a_sym b_sym : Expr) (fig : Figure) :
  chart_block E N func_sympy a_sym b_sym = Pyplot fig ->
  (infinite E a_sym = true -> infinite E b_sym = true -> fig_vlines fig = [])
  /\ (infinite E a_sym = false -> infinite E b_sym = true ->
      exists fa, to_float N a_sym = inr fa /\ fig_vlines fig = [fa])
  /\ (infinite E a_sym = true -> infinite E b_sym = false ->
      exists fb, to_float N b_sym = inr fb /\ fig_vlines fig = [fb])
  /\ (infinite E a_sym = false -> infinite E b_sym = false ->
      exists fa fb, to_float N a_sym = inr fa /\ to_float N b_sym = inr fb
                    /\ fig_vlines fig = [fa; fb]).
Proof.
  unfold chart_block.
  destruct (draw E N func_sympy a_sym b_sym) as [e | fig'] eqn:Hdraw;
    [discriminate |].
  intros [= ->].
  destruct (draw_shown _ _ _ _ Hdraw)
    as (lo & hi & f_lambda & ys & Hw & _ & _ & _ & ->).
  destruct (plot_window_ends _ _ _ _ Hw) as [Hlo Hhi].
  cbn [fig_vlines]. unfold markers. unfold infinite in *.
  repeat split; intros Ha Hb; rewrite Ha, Hb; cbn [negb app].
  - reflexivity.
  - exists lo. auto.
  - exists hi. auto.
  - exists lo, hi. auto.
Qed.

(** X17. The vertical range of a shown chart is computed from the
    evaluated values that are neither infinite nor NaN, in their order. It
    is left unset exactly when there is no such value; otherwise it is
    [q1 - 0.5 * (q3 - q1)] and [q3 + 0.5 * (q3 - q1)] for the two
    percentiles [q1] and [q3] of those values. *)
Theorem chart_vertical_range (func_sympy a_sym b_sym : Expr) (fig : Figure) :
  chart_block E N func_sympy a_sym b_sym = Pyplot fig ->
  exists f_lambda ys,
    lambdify N func_sympy = inr f_lambda
    /\ f_lambda (fig_x fig) = inr (Np.array ys)
    /\ (fig_ylim fig = None <-> filter is_finite ys = [])
    /\ (filter is_finite ys <> [] ->
        exists q1 q3,
          percentile N (filter is_finite ys) = inr (q1, q3)
          /\ fig_ylim fig
             = Some (fsub q1 (fmul half (fsub q3 q1)),
                     fadd q3 (fmul half (fsub q3 q1)))).
Proof.
  unfold chart_block.
  destruct (draw E N func_sympy a_sym b_sym) as [e | fig'] eqn:Hdraw;
    [discriminate |].
  intros [= ->].
  destruct (draw_shown _ _ _ _ Hdraw)
    as (lo & hi & f_lambda & ys & _ & Hl & Hcall & Hlim & Hfig).
  exists f_lambda, ys. rewrite Hfig at 1. cbn [fig_x].
  split; [exact Hl |]. split; [exact Hcall |].
  unfold y_limits in Hlim. rewrite valid_y_drawn in Hlim.
  destruct (filter is_finite ys) as [| y rest] eqn:Hvalid.
  - cbn in Hlim. injection Hlim as <-. split; [tauto |].
    intros H. destruct (H eq_refl).
  - cbn [length Nat.ltb Nat.leb] in Hlim.
    destruct (percentile N (y :: rest)) as [e | [q1 q3]]; [discriminate |].
    cbn [and_then fst snd] in Hlim.
    destruct (set_ylim N _ _) as [e | []]; [discriminate |].
    cbn [and_then] in Hlim. injection Hlim as <-.
    split; [split; discriminate |].
    intros _. exists q1, q3. auto.
Qed.

(** X18. An expression whose lambdified function gives a Python
    scalar on every array, as a constant expression does, is never drawn,
    whatever the bounds: the chart block ends with the error message. *)
Theorem scalar_values_are_not_drawn (func_sympy : Expr)
    (f_lambda : list spec_float -> Exn + Np.value) :
  lambdify N func_sympy = inr f_lambda ->
  (forall xs, exists v, f_lambda xs = inr (Np.scalar v)) ->
  forall a_sym b_sym, exists e,
    chart_block E N func_sympy a_sym b_sym
    = ChartError ("그래프를 그리는 중 오류가 발생했습니다: " ++ e).
Proof.
  intros Hl Hscalar a_sym b_sym. unfold chart_block, draw.
  destruct (plot_window E N a_sym b_sym) as [e | [lo hi]].
  - exists e. reflexivity.
  - cbn [and_then fst snd]. rewrite Hl. cbn [and_then].
    destruct (Hscalar (linspace N lo hi)) as [v ->].
    cbn [and_then Np.plotted_series]. eexists. reflexivity.
Qed.

End ChartFacts.

Lemma recip_figure_shown :
  chart_block Demo.engine DemoChart.toolkit Demo.Recip_x
    (Demo.Int 0) (Demo.Int 1) = Pyplot DemoChart.recip_figure.
Proof. vm_compute. reflexivity. Qed.

Lemma chart_series_witness :
  chart_block Demo.engine DemoChart.toolkit Demo.Recip_x
    (Demo.Int 0) (Demo.Int 1) = Pyplot DemoChart.recip_figure
  /\ (forall y, In y (fig_y DemoChart.recip_figure) -> Np.isinf y = false).
Proof.
  split; [exact recip_figure_shown |].
  destruct (chart_series Demo.engine DemoChart.toolkit Demo.Recip_x
              (Demo.Int 0) (Demo.Int 1) DemoChart.recip_figure
              recip_figure_shown)
    as (lo & hi & f_lambda & ys & _ & _ & _ & _ & _ & _ & Hfinite).
  exact Hfinite.
Defined.

Lemma chart_markers_witness :
  chart_block Demo.engine DemoChart.toolkit Demo.Recip_x
    (Demo.Int 0) (Demo.Int 1) = Pyplot DemoChart.recip_figure
  /\ exists fa fb,
       to_float DemoChart.toolkit (Demo.Int 0) = inr fa
       /\ to_float DemoChart.toolkit (Demo.Int 1) = inr fb
       /\ fig_vlines DemoChart.recip_figure = [fa; fb].
Proof.
  split; [exact recip_figure_shown |].
  destruct (chart_markers Demo.engine DemoChart.toolkit Demo.Recip_x
              (Demo.Int 0) (Demo.Int 1) DemoChart.recip_figure
              recip_figure_shown)
    as (_ & _ & _ & Hboth).
  exact (Hboth eq_refl eq_refl).
Defined.

Lemma chart_vertical_range_witness :
  chart_block Demo.engine DemoChart.toolkit Demo.Recip_x
    (Demo.Int 0) (Demo.Int 1) = Pyplot DemoChart.recip_figure
  /\ exists f_lambda ys,
       lambdify DemoChart.toolkit Demo.Recip_x = inr f_lambda
       /\ f_lambda (fig_x DemoChart.recip_figure) = inr (Np.array ys)
       /\ (fig_ylim DemoChart.recip_figure = None
           <-> filter is_finite ys = [])
       /\ (filter is_finite ys <> [] ->
           exists q1 q3,
             percentile DemoChart.toolkit (filter is_finite ys)
             = inr (q1, q3)
             /\ fig_ylim DemoChart.recip_figure
                = Some (fsub q1 (fmul half (fsub q3 q1)),
                        fadd q3 (fmul half (fsub q3 q1)))).
Proof.
  split; [exact recip_figure_shown |].
  exact (chart_vertical_range Demo.engine DemoChart.toolkit Demo.Recip_x
           (Demo.Int 0) (Demo.Int 1) DemoChart.recip_figure
           recip_figure_shown).
Defined.

Lemma scalar_values_are_not_drawn_witness :
  exists e,
    chart_block Demo.engine DemoChart.toolkit (Demo.Int 5)
      (Demo.Int 0) (Demo.Int 1)
    = ChartError ("그래프를 그리는 중 오류가 발생했습니다: " ++ e).
Proof.
  apply (scalar_values_are_not_drawn Demo.engine DemoChart.toolkit
           (Demo.Int 5) (fun _ => inr (Np.scalar (float_of_Z 5))) eq_refl).
  intros xs. exists (float_of_Z 5). reflexivity.
Defined.

(** ** The font loader *)

Section FontFacts.

Lemma fnmatch_star (pattern : list item) (name : string) :
  fnmatch (Star :: pattern) name = true
  <-> exists stem e, name = stem ++ e /\ fnmatch pattern e = true.
Proof.
  induction name as [| c s IH].
  - cbn. rewrite orb_false_r. split.
    + intros H. exists "", "". auto.
    + intros (stem & e & Heq & H). destruct stem; [| discriminate].
      cbn in Heq. subst e. exact H.
  - change (fnmatch (Star :: pattern) (String c s))
      with (fnmatch pattern (String c s) || fnmatch (Star :: pattern) s).
    rewrite orb_true_iff, IH. split.
    + intros [H | (stem & e & -> & H)].
      * exists "", (String c s). auto.
      * exists (String c stem), e. auto.
    + intros (stem & e & Heq & H). destruct stem as [| c' stem].
      * cbn in Heq. subst e. auto.
      * cbn in Heq. injection Heq as -> ->. right. exists stem, e. auto.
Qed.

Lemma lower_ascii_letter (c : ascii) (l u : ascii) :
  (97 <= nat_of_ascii l <= 122)%nat ->
  nat_of_ascii u = (nat_of_ascii l - 32)%nat ->
  lower_ascii c = l <-> (c = l \/ c = u).
Proof.
  intros Hl Hu. unfold lower_ascii.
  destruct ((65 <=? nat_of_ascii c)%nat && (nat_of_ascii c <=? 90)%nat) eqn:Hc.
  - apply andb_true_iff in Hc. destruct Hc as [H1 H2].
    apply Nat.leb_le in H1, H2. split.
    + intros H. right.
      assert (Hn : nat_of_ascii (ascii_of_nat (nat_of_ascii c + 32))
                   = nat_of_ascii l) by (rewrite H; reflexivity).
      rewrite nat_ascii_embedding in Hn by lia.
      rewrite <- (ascii_nat_embedding c), <- (ascii_nat_embedding u).
      f_equal. lia.
    + intros [-> | ->]; [lia |].
      rewrite Hu. replace (nat_of_ascii l - 32 + 32)%nat with (nat_of_ascii l) by lia.
      apply ascii_nat_embedding.
  - split; [auto |]. intros [H | ->]; [exact H |].
    apply andb_false_iff in Hc. rewrite !Nat.leb_gt in Hc. lia.
Qed.

Lemma lower_ascii_dot (c : ascii) : lower_ascii c = "."%char <-> c = "."%char.
Proof.
  unfold lower_ascii.
  destruct ((65 <=? nat_of_ascii c)%nat && (nat_of_ascii c <=? 90)%nat) eqn:Hc.
  - apply andb_true_iff in Hc. destruct Hc as [H1 H2].
    apply Nat.leb_le in H1, H2. split.
    + intros H.
      assert (Hn : nat_of_ascii (ascii_of_nat (nat_of_ascii c + 32))
                   = nat_of_ascii "."%char) by (rewrite H; reflexivity).
      rewrite nat_ascii_embedding in Hn by lia. cbn in Hn. lia.
    + intros ->. cbn in H1. lia.
  - tauto.
Qed.

Lemma one_of_two (c l u : ascii) :
  existsb (Ascii.eqb c) [l; u] = true <-> (c = l \/ c = u).
Proof.
  cbn [existsb]. rewrite orb_false_r, orb_true_iff, !Ascii.eqb_eq. tauto.
Qed.

(** Matching the four last characters. *)
Lemma fnmatch_suffix (l1 u1 l2 u2 l3 u3 : ascii) (e : string) :
  (97 <= nat_of_ascii l1 <= 122)%nat ->
  nat_of_ascii u1 = (nat_of_ascii l1 - 32)%nat ->
  (97 <= nat_of_ascii l2 <= 122)%nat ->
  nat_of_ascii u2 = (nat_of_ascii l2 - 32)%nat ->
  (97 <= nat_of_ascii l3 <= 122)%nat ->
  nat_of_ascii u3 = (nat_of_ascii l3 - 32)%nat ->
  fnmatch [Lit "."; OneOf [l1; u1]; OneOf [l2; u2]; OneOf [l3; u3]] e = true
  <-> lower e = String "." (String l1 (String l2 (String l3 ""))).
Proof.
  intros H1 G1 H2 G2 H3 G3.
  destruct e as [| c0 [| c1 [| c2 [| c3 [| c4 e]]]]];
    cbn [fnmatch lower]; try (split; discriminate).
  - split; [| discriminate]. rewrite andb_false_r. discriminate.
  - split; [| discriminate]. rewrite !andb_false_r. discriminate.
  - split; [| discriminate]. rewrite !andb_false_r. discriminate.
  - rewrite !andb_true_r, !andb_true_iff, Ascii.eqb_eq, !one_of_two.
    rewrite <- (lower_ascii_dot c0).
    rewrite <- (lower_ascii_letter c1 l1 u1 H1 G1).
    rewrite <- (lower_ascii_letter c2 l2 u2 H2 G2).
    rewrite <- (lower_ascii_letter c3 l3 u3 H3 G3).
    split.
    + intros (-> & -> & -> & ->). reflexivity.
    + intros [= -> -> -> ->]. auto.
  - split; [| discriminate]. rewrite !andb_false_r. discriminate.
Qed.

Lemma fnmatch_ttf (name : string) :
  fnmatch pattern_ttf name = true <-> has_extension ".ttf" name.
Proof.
  unfold pattern_ttf, has_extension. rewrite fnmatch_star.
  split; intros (stem & e & -> & H); exists stem, e; (split; [reflexivity |]);
    apply (fnmatch_suffix "t" "T" "t" "T" "f" "F"); cbn; auto; lia.
Qed.

Lemma fnmatch_otf (name : string) :
  fnmatch pattern_otf name = true <-> has_extension ".otf" name.
Proof.
  unfold pattern_otf, has_extension. rewrite fnmatch_star.
  split; intros (stem & e & -> & H); exists stem, e; (split; [reflexivity |]);
    apply (fnmatch_suffix "o" "O" "t" "T" "f" "F"); cbn; auto; lia.
Qed.

Lemma glob_in (entries : list string) (pattern : list item) (path : string) :
  In path (glob entries pattern)
  <-> exists name, In name entries /\ path = "font/" ++ name
                   /\ ishidden name = false /\ fnmatch pattern name = true.
Proof.
  unfold glob. rewrite in_map_iff. split.
  - intros (name & <- & Hin). apply filter_In in Hin.
    destruct Hin as [Hin Hf]. apply andb_true_iff in Hf.
    destruct Hf as [Hh Hm]. apply negb_true_iff in Hh.
    exists name. auto.
  - intros (name & Hin & -> & Hh & Hm). exists name. split; [reflexivity |].
    apply filter_In. split; [exact Hin |]. rewrite Hh, Hm. reflexivity.
Qed.

Lemma glob_first (before after : list string) (pattern : list item)
    (name : string) :
  ishidden name = false -> fnmatch pattern name = true ->
  (forall m, In m before ->
             ~ (ishidden m = false /\ fnmatch pattern m = true)) ->
  glob (before ++ name :: after) pattern
  = ("font/" ++ name) :: glob after pattern.
Proof.
  intros Hh Hm Hnone. unfold glob. rewrite filter_app.
  replace (filter _ before) with (@nil string).
  - cbn [app filter]. rewrite Hh, Hm. reflexivity.
  - symmetry. induction before as [| m rest IH]; [reflexivity |].
    cbn [filter].
    destruct (negb (ishidden m) && fnmatch pattern m) eqn:Hf.
    + exfalso. apply (Hnone m (or_introl eq_refl)).
      apply andb_true_iff in Hf. destruct Hf as [H1 H2].
      apply negb_true_iff in H1. auto.
    + apply IH. intros m' Hin. apply Hnone. right. exact Hin.
Qed.

Lemma glob_none (entries : list string) (pattern : list item) :
  (forall m, In m entries ->
             ~ (ishidden m = false /\ fnmatch pattern m = true)) ->
  glob entries pattern = [].
Proof.
  intros Hnone. destruct (glob entries pattern) as [| p rest] eqn:Hg;
    [reflexivity |].
  assert (Hin : In p (glob entries pattern)) by (rewrite Hg; left; reflexivity).
  apply glob_in in Hin. destruct Hin as (name & Hin & _ & Hh & Hm).
  destruct (Hnone name Hin). auto.
Qed.

(** X19. The two patterns of line 22 select the names that end in
    [.ttf], respectively [.otf], in any mix of upper and lower case, a
    name that is this extension alone included. *)
Theorem font_patterns_match_extension (name : string) :
  (fnmatch pattern_ttf name = true <-> has_extension ".ttf" name)
  /\ (fnmatch pattern_otf name = true <-> has_extension ".otf" name).
Proof. split; [apply fnmatch_ttf | apply fnmatch_otf]. Qed.

Variable fm : FontManager.

(** X20. The font file handed to the font manager. It is the
    first TrueType file of the directory listing that is not hidden, also
    when an OpenType file is listed before it; without such a TrueType
    file it is the first OpenType file that is not hidden. *)
Theorem truetype_font_preferred (before after : list string) (name : string) :
  (font_file ".ttf" name ->
   (forall m, In m before -> ~ font_file ".ttf" m) ->
   load_korean_font fm (Some (before ++ name :: after)%list)
   = register fm ("font/" ++ name))
  /\ (font_file ".otf" name ->
      (forall m, In m (before ++ name :: after)%list -> ~ font_file ".ttf" m) ->
      (forall m, In m before -> ~ font_file ".otf" m) ->
      load_korean_font fm (Some (before ++ name :: after)%list)
      = register fm ("font/" ++ name)).
Proof.
  unfold font_file, load_korean_font, font_files. split.
  - intros [Hh Hext] Hnone.
    rewrite (glob_first before after pattern_ttf name Hh).
    + reflexivity.
    + apply fnmatch_ttf. exact Hext.
    + intros m Hin [H1 H2]. apply (Hnone m Hin). split; [exact H1 |].
      apply fnmatch_ttf. exact H2.
  - intros [Hh Hext] Hno_ttf Hnone.
    rewrite (glob_none _ pattern_ttf).
    + rewrite (glob_first before after pattern_otf name Hh).
      * reflexivity.
      * apply fnmatch_otf. exact Hext.
      * intros m Hin [H1 H2]. apply (Hnone m Hin). split; [exact H1 |].
        apply fnmatch_otf. exact H2.
    + intros m Hin [H1 H2]. apply (Hno_ttf m Hin). split; [exact H1 |].
      apply fnmatch_ttf. exact H2.
Qed.

(** X21. The loader returns without touching the font settings
    exactly when the directory is missing or lists no visible name with one
    of the two extensions. *)
Theorem no_font_iff (font_dir : option (list string)) :
  load_korean_font fm font_dir = NoFont
  <-> (font_dir = None
       \/ exists entries,
            font_dir = Some entries
            /\ forall m, In m entries ->
                 ~ font_file ".ttf" m /\ ~ font_file ".otf" m).
Proof.
  unfold load_korean_font. destruct font_dir as [entries |].
  - destruct (font_files entries) as [| font_path rest] eqn:Hfiles.
    + split; [| reflexivity]. intros _. right. exists entries.
      split; [reflexivity |]. intros m Hin.
      unfold font_files in Hfiles. apply app_eq_nil in Hfiles.
      destruct Hfiles as [Httf Hotf].
      split; intros [Hh Hext].
      * apply fnmatch_ttf in Hext.
        assert (H : In ("font/" ++ m) (glob entries pattern_ttf))
          by (apply glob_in; exists m; auto).
        rewrite Httf in H. exact H.
      * apply fnmatch_otf in Hext.
        assert (H : In ("font/" ++ m) (glob entries pattern_otf))
          by (apply glob_in; exists m; auto).
        rewrite Hotf in H. exact H.
    + split.
      * unfold register.
        destruct (addfont fm font_path) as [e | u]; [discriminate |].
        destruct (get_name fm font_path); discriminate.
      * intros [H | (entries' & [= <-] & Hnone)]; [discriminate |].
        exfalso.
        assert (Hin : In font_path (font_files entries))
          by (rewrite Hfiles; left; reflexivity).
        unfold font_files in Hin. apply in_app_or in Hin.
        destruct Hin as [Hin | Hin]; apply glob_in in Hin;
          destruct Hin as (m & Hm & _ & Hh & Hmatch);
          destruct (Hnone m Hm) as [Hn1 Hn2].
        -- apply Hn1. split; [exact Hh |]. apply fnmatch_ttf. exact Hmatch.
        -- apply Hn2. split; [exact Hh |]. apply fnmatch_otf. exact Hmatch.
  - split; [auto | reflexivity].
Qed.

End FontFacts.

Lemma truetype_font_preferred_witness :
  load_korean_font demo_font_manager
    (Some ["README.md"; "Nanum.otf"; ".hidden.ttf"; "NanumGothic.TTF";
           "other.ttf"])
  = FontSet "font/NanumGothic.TTF" "NanumGothic".
Proof.
  apply (proj1 (truetype_font_preferred demo_font_manager
                  ["README.md"; "Nanum.otf"; ".hidden.ttf"]
                  ["other.ttf"] "NanumGothic.TTF")).
  - split; [reflexivity |]. exists "NanumGothic", ".TTF". split; reflexivity.
  - intros m [<- | [<- | [<- | []]]] [Hh Hext];
      try discriminate Hh;
      apply fnmatch_ttf in Hext; discriminate Hext.
Defined.
